(** * AstraMentor core: mastery estimation, knowledge-point ledger and
    dependency ordering.

    Shallow embedding of
    - [src/config.py]                     ([LearningConfig]),
    - [src/core/scoring.py]               ([ScoringEngine]),
    - [src/core/learner_state.py]         ([KnowledgePoint], [LearnerState]),
    - [src/agents/knowledge_graph_agent.py] ([get_learning_path]).

    Python floats are modelled as exact rationals [Q]: the properties below
    are about the arithmetic the code writes, not about binary rounding.
    [round(x, 4)] is modelled as round-half-to-even of the exact value
    [x * 10^4]. *)

From Stdlib Require Import QArith Qround Qminmax Lqa ZArith Sorting.Permutation.
From Stdlib Require Import Setoid Morphisms Relations.
From stdpp Require Import base gmap strings list pretty.

Open Scope Q_scope.

(* ===================================================================== *)
(** ** Python numeric helpers *)
(* ===================================================================== *)

(** [a < b] on floats, as a boolean. *)
Definition Qltb (a b : Q) : bool := negb (Qle_bool b a).

(** Python's [min(a, b)]: the first argument unless the second is smaller. *)
Definition py_min (a b : Q) : Q := if Qltb b a then b else a.

(** Python's [max(a, b)]: the first argument unless the second is larger. *)
Definition py_max (a b : Q) : Q := if Qltb a b then b else a.

(** [max(0.0, min(1.0, x))], the clamp used for inputs and for the result. *)
Definition clamp01 (x : Q) : Q := py_max 0 (py_min 1 x).

(** Round half to even of a rational, to an integer. *)
Definition round_half_even (q : Q) : Z :=
  let f := Qfloor q in
  let r := q - inject_Z f in
  if Qltb r (1#2) then f
  else if Qltb (1#2) r then (f + 1)%Z
  else if Z.even f then f else (f + 1)%Z.

(** Python's [round(x, 4)]. *)
Definition py_round4 (x : Q) : Q := round_half_even (x * 10000) # 10000.

(** Python's [round(x, 3)]. *)
Definition py_round3 (x : Q) : Q := round_half_even (x * 1000) # 1000.

(* ===================================================================== *)
(** ** [src/config.py] and [src/core/scoring.py] *)
(* ===================================================================== *)

Module Scoring.

(** [class TaskDifficulty(Enum)]. *)
Inductive TaskDifficulty := CONCEPT | BASIC_CODE | ADVANCED.

(** The [difficulty] argument of [calculate_new_mastery]: a member of the
    enum, or any other (hashable) value such as a plain string label, which
    the lookup [caps.get(difficulty, ...)] in [get_difficulty_cap] accepts. *)
Inductive DifficultyArg :=
| Tier (t : TaskDifficulty)
| OtherValue (v : string).

(** [@dataclass class LearningConfig] of [src/config.py]. *)
Record LearningConfig := {
  learning_rate : Q;
  difficulty_concept : Q;
  difficulty_basic_code : Q;
  difficulty_advanced : Q;
  default_target_mastery : Q
}.

Definition default_learning_config : LearningConfig := {|
  learning_rate := 3 # 10;
  difficulty_concept := 4 # 10;
  difficulty_basic_code := 7 # 10;
  difficulty_advanced := 1;
  default_target_mastery := 8 # 10
|}.

(** The attributes set by [ScoringEngine.__init__]. *)
Record ScoringEngine := {
  base_learning_rate : Q;
  config : LearningConfig;
  stage_learning_rates : list (nat * Q);
  forgetting_start_days : Z;
  forgetting_rate : Q;
  forgetting_floor : Q;
  slip_threshold : Q;
  guess_threshold : Q;
  slip_protection : Q;
  guess_dampening : Q
}.

Fixpoint assoc_get {V} (k : nat) (l : list (nat * V)) : option V :=
  match l with
  | [] => None
  | (k', v) :: l' => if Nat.eqb k k' then Some v else assoc_get k l'
  end.

(** [ScoringEngine(learning_rate)] over the global [config]:
    [self.base_learning_rate = learning_rate or config.learning.learning_rate]
    ([None] and [0.0] are both falsy). *)
Definition new_ScoringEngine (lr : option Q) : ScoringEngine :=
  let cfg := default_learning_config in {|
  base_learning_rate :=
    match lr with
    | Some x => if Qeq_bool x 0 then learning_rate cfg else x
    | None => learning_rate cfg
    end;
  config := cfg;
  stage_learning_rates := [(0%nat, 40 # 100); (1%nat, 35 # 100);
                           (2%nat, 25 # 100); (3%nat, 15 # 100)];
  forgetting_start_days := 7;
  forgetting_rate := 2 # 100;
  forgetting_floor := 1 # 10;
  slip_threshold := 7 # 10;
  guess_threshold := 3 # 10;
  slip_protection := 5 # 10;
  guess_dampening := 6 # 10
|}.

(** [ScoringEngine()], the engine used by the application. *)
Definition engine : ScoringEngine := new_ScoringEngine None.

(** [get_difficulty_cap]: [caps.get(difficulty, difficulty_basic_code)]. *)
Definition get_difficulty_cap (e : ScoringEngine) (d : DifficultyArg) : Q :=
  match d with
  | Tier CONCEPT => difficulty_concept (config e)
  | Tier BASIC_CODE => difficulty_basic_code (config e)
  | Tier ADVANCED => difficulty_advanced (config e)
  | OtherValue _ => difficulty_basic_code (config e)
  end.

(** [get_adaptive_learning_rate]. *)
Definition get_adaptive_learning_rate (e : ScoringEngine) (mastery : Q) : Q :=
  let stage :=
    if Qltb mastery (2 # 10) then 0%nat
    else if Qltb mastery (5 # 10) then 1%nat
    else if Qltb mastery (8 # 10) then 2%nat
    else 3%nat in
  match assoc_get stage (stage_learning_rates e) with
  | Some r => r
  | None => base_learning_rate e
  end.

(** [calculate_time_decay]; the argument is
    [(datetime.now() - last_practice_time).days], or [None] when
    [last_practice_time is None]. *)
Definition calculate_time_decay (e : ScoringEngine) (days : option Z) : Q :=
  match days with
  | None => 1
  | Some days_since_practice =>
      if Z.leb days_since_practice (forgetting_start_days e) then 1
      else
        let extra_days := (days_since_practice - forgetting_start_days e)%Z in
        let decay := 1 - forgetting_rate e * inject_Z extra_days in
        py_max (forgetting_floor e) decay
  end.

(** [calculate_tolerance_factor] ([is_improvement] is computed and unused). *)
Definition calculate_tolerance_factor (e : ScoringEngine)
    (old_mastery task_score : Q) : Q :=
  if Qle_bool (slip_threshold e) old_mastery && Qltb task_score (5 # 10)
  then slip_protection e
  else if Qle_bool old_mastery (guess_threshold e) && Qltb (8 # 10) task_score
  then guess_dampening e
  else 1.

(** [@dataclass class ScoringResult]. *)
Record ScoringResult := {
  task_score : Q;
  old_mastery : Q;
  new_mastery : Q;
  difficulty : DifficultyArg;
  difficulty_cap : Q;
  res_learning_rate : Q;
  time_decay : Q;
  tolerance_factor : Q;
  algorithm : string
}.

(** Steps 1-6 of the enhanced branch of [calculate_new_mastery], given the
    clamped inputs, the cap, the time decay and the tolerance factor: the
    value assigned to [new_mastery] before the final clamp and rounding. *)
Definition enhanced_raw (e : ScoringEngine) (old_mastery task_score w_cap
    time_decay tolerance_factor : Q) : Q :=
  let decayed_mastery := old_mastery * time_decay in
  let learning_rate := get_adaptive_learning_rate e decayed_mastery in
  let target := task_score * w_cap in
  let delta := target - decayed_mastery in
  let adjusted_delta :=
    if Qltb delta 0 then delta * tolerance_factor
    else delta * tolerance_factor in
  decayed_mastery + learning_rate * adjusted_delta.

(** The legacy branch ([use_enhanced = False]). *)
Definition legacy_raw (e : ScoringEngine) (old_mastery task_score w_cap : Q) : Q :=
  let target := task_score * w_cap in
  old_mastery + base_learning_rate e * (target - old_mastery).

(** [calculate_new_mastery]. *)
Definition calculate_new_mastery (e : ScoringEngine) (old_mastery0 task_score0 : Q)
    (difficulty0 : DifficultyArg) (days : option Z) (use_enhanced : bool)
    : ScoringResult :=
  let old_mastery := clamp01 old_mastery0 in
  let task_score := clamp01 task_score0 in
  let w_cap := get_difficulty_cap e difficulty0 in
  let '(lr, td, tf, nm) :=
    if use_enhanced then
      let td := calculate_time_decay e days in
      let lr := get_adaptive_learning_rate e (old_mastery * td) in
      let tf := calculate_tolerance_factor e old_mastery task_score in
      (lr, td, tf, enhanced_raw e old_mastery task_score w_cap td tf)
    else
      (base_learning_rate e, 1, 1, legacy_raw e old_mastery task_score w_cap) in
  let nm := clamp01 nm in
  {| task_score := task_score;
     old_mastery := old_mastery;
     new_mastery := py_round4 nm;
     difficulty := difficulty0;
     difficulty_cap := w_cap;
     res_learning_rate := lr;
     time_decay := td;
     tolerance_factor := tf;
     algorithm := if use_enhanced then "enhanced_ema" else "basic_ema" |}.

(** The enhanced branch of [calculate_new_mastery] with its tolerance factor
    replaced by [gamma] (clamp and rounding as in the source);
    for [gamma = calculate_tolerance_factor ...] this is [new_mastery]. *)
Definition enhanced_with_gamma (e : ScoringEngine) (A0 S : Q) (d : DifficultyArg)
    (days : option Z) (gamma : Q) : Q :=
  py_round4 (clamp01 (enhanced_raw e (clamp01 A0) (clamp01 S)
    (get_difficulty_cap e d) (calculate_time_decay e days) gamma)).

(** Repeated enhanced updates at a fixed difficulty, each step taking the
    stored (rounded) [new_mastery] of the previous one, as the evaluation
    loop does through the ledger; one (score, elapsed days) pair per step.
    Returns the masteries after each step. *)
Fixpoint enhanced_trajectory (e : ScoringEngine) (d : DifficultyArg) (a : Q)
    (steps : list (Q * option Z)) : list Q :=
  match steps with
  | [] => []
  | (s, days) :: rest =>
      let a' := new_mastery (calculate_new_mastery e a s d days true) in
      a' :: enhanced_trajectory e d a' rest
  end.

(** Written from the spec sentences of claim C1 (not from the code), to be
    compared with [calculate_new_mastery]: the enhanced update
    [round(clamp(A_d + alpha(A_d) * (S_c * cap - A_d) * gamma(A0_c, S_c)), 4)]. *)
Module SpecC1.

Definition clamp (x : Q) : Q := Qmax 0 (Qmin 1 x).

Definition beta (d : option Z) : Q :=
  match d with
  | None => 1
  | Some d => if Z.leb d 7 then 1 else Qmax (1 # 10) (1 - (2 # 100) * inject_Z (d - 7))
  end.

Definition alpha (a : Q) : Q :=
  if Qltb a (2 # 10) then 40 # 100
  else if Qltb a (5 # 10) then 35 # 100
  else if Qltb a (8 # 10) then 25 # 100
  else 15 # 100.

Definition cap (t : TaskDifficulty) : Q :=
  match t with CONCEPT => 4 # 10 | BASIC_CODE => 7 # 10 | ADVANCED => 1 end.

Definition gamma (a0 s : Q) : Q :=
  if Qle_bool (7 # 10) a0 && Qltb s (5 # 10) then 5 # 10
  else if Qle_bool a0 (3 # 10) && Qltb (8 # 10) s then 6 # 10
  else 1.

Definition enhanced_new_mastery (A0 S : Q) (t : TaskDifficulty) (d : option Z) : Q :=
  let a0 := clamp A0 in
  let s := clamp S in
  let ad := a0 * beta d in
  py_round4 (clamp (ad + alpha ad * (s * cap t - ad) * gamma a0 s)).

End SpecC1.


(** [apply_forgetting]: the recorded mastery times the time decay, rounded
    to four decimals. *)
Definition apply_forgetting (e : ScoringEngine) (current_mastery : Q)
    (days : option Z) : Q :=
  py_round4 (current_mastery * calculate_time_decay e days).

(** Python's [k in s] on strings. A [string] holds the UTF-8 bytes of the
    text; for well-formed UTF-8, containment of the byte sequences is
    containment of the character sequences. *)
Fixpoint str_contains (k s : string) : bool :=
  match s with
  | EmptyString => String.eqb k EmptyString
  | String _ s' => String.prefix k s || str_contains k s'
  end.

(** The keyword lists of [determine_difficulty], in source order. *)
Definition advanced_keywords : list string :=
  ["实现"; "编写"; "设计"; "优化"; "架构";
   "算法"; "项目"; "系统"; "完整"; "手写";
   "implement"; "write"; "design"; "optimize"; "architecture";
   "algorithm"; "project"; "system"; "complete"].

Definition basic_keywords : list string :=
  ["填空"; "补全"; "修改"; "调试"; "修复";
   "fill"; "complete"; "modify"; "debug"; "fix";
   "代码"; "code"; "函数"; "function"].

(** [determine_difficulty]: the two [for keyword in ...: if keyword in
    question_lower: return ...] loops. [lower] is [str.lower]; it is taken
    as an argument, so that the properties below hold whatever it does to
    the text. *)
Definition determine_difficulty (lower : string -> string) (question_type : string)
    : TaskDifficulty :=
  let question_lower := lower question_type in
  if existsb (fun keyword => str_contains keyword question_lower) advanced_keywords
  then ADVANCED
  else if existsb (fun keyword => str_contains keyword question_lower) basic_keywords
  then BASIC_CODE
  else CONCEPT.

(** [str.lower] on ASCII text (letters [A-Z] to [a-z], every other byte
    kept), the instance used for concrete runs. *)
Definition ascii_lower_char (c : Ascii.ascii) : Ascii.ascii :=
  let n := Ascii.nat_of_ascii c in
  if (Nat.leb 65 n && Nat.leb n 90)%bool then Ascii.ascii_of_nat (n + 32) else c.

Fixpoint ascii_lower (s : string) : string :=
  match s with
  | EmptyString => EmptyString
  | String c s' => String (ascii_lower_char c) (ascii_lower s')
  end.

End Scoring.

(* ===================================================================== *)
(** ** [src/core/learner_state.py]: the knowledge-point ledger *)
(* ===================================================================== *)

Module Ledger.

(** One entry of [KnowledgePoint.history] (a Python dict with these keys). *)
Record HistoryEntry := {
  h_timestamp : string;
  h_old_mastery : Q;
  h_new_mastery : Q;
  h_score : Q;
  h_feedback : string
}.

(** [@dataclass class KnowledgePoint]. *)
Record KnowledgePoint := {
  name : string;
  actual_mastery : Q;
  target_mastery : Q;
  note : string;
  history : list HistoryEntry;
  created_at : string;
  updated_at : string
}.

(** [KnowledgePoint.update_mastery]; [now] is [datetime.now().isoformat()]
    (the clock is an explicit input). *)
Definition kp_update_mastery (kp : KnowledgePoint) (new_mastery score : Q)
    (feedback now : string) : KnowledgePoint := {|
  name := name kp;
  actual_mastery := new_mastery;
  target_mastery := target_mastery kp;
  note := note kp;
  history := history kp ++ [{| h_timestamp := now;
                               h_old_mastery := actual_mastery kp;
                               h_new_mastery := new_mastery;
                               h_score := score;
                               h_feedback := feedback |}];
  created_at := created_at kp;
  updated_at := now
|}.

(** [class LearnerState]: the dict [knowledge_points] (name to point). The
    optional [state_file] only receives a copy of the map on [_auto_save] and
    never changes it, so it is left out. *)
Record LearnerState := {
  knowledge_points : gmap string KnowledgePoint
}.

Definition empty_state : LearnerState := {| knowledge_points := ∅ |}.

(** [LearnerState.add_knowledge_point]: returns the point and the new state.
    [if note:] is false exactly for the empty string. *)
Definition add_knowledge_point (st : LearnerState) (nm : string)
    (target : Q) (nt : string) (initial_mastery : Q) (now : string)
    : KnowledgePoint * LearnerState :=
  match knowledge_points st !! nm with
  | None =>
      let kp := {| name := nm; actual_mastery := initial_mastery;
                   target_mastery := target; note := nt; history := [];
                   created_at := now; updated_at := now |} in
      (kp, {| knowledge_points := <[nm := kp]> (knowledge_points st) |})
  | Some kp =>
      let kp' := {| name := name kp; actual_mastery := actual_mastery kp;
                    target_mastery := target;
                    note := match nt with EmptyString => note kp | _ => nt end;
                    history := history kp; created_at := created_at kp;
                    updated_at := updated_at kp |} in
      (kp', {| knowledge_points := <[nm := kp']> (knowledge_points st) |})
  end.

(** [LearnerState.update_mastery]: the boolean result and the new state. *)
Definition update_mastery (st : LearnerState) (nm : string) (new_mastery score : Q)
    (feedback now : string) : bool * LearnerState :=
  match knowledge_points st !! nm with
  | None => (false, st)
  | Some kp =>
      (true, {| knowledge_points :=
                  <[nm := kp_update_mastery kp new_mastery score feedback now]>
                    (knowledge_points st) |})
  end.

(** A call on the ledger, with the clock reading it takes. *)
Inductive LedgerOp :=
| AddKP (nm : string) (target : Q) (nt : string) (initial_mastery : Q) (now : string)
| UpdateKP (nm : string) (new_mastery score : Q) (feedback now : string).

Definition run_op (st : LearnerState) (op : LedgerOp) : LearnerState :=
  match op with
  | AddKP nm t nt i now => snd (add_knowledge_point st nm t nt i now)
  | UpdateKP nm v s f now => snd (update_mastery st nm v s f now)
  end.

Fixpoint run_ops (st : LearnerState) (ops : list LedgerOp) : LearnerState :=
  match ops with
  | [] => st
  | op :: rest => run_ops (run_op st op) rest
  end.


(** [LearnerState.get_knowledge_point]: [self.knowledge_points.get(name)]. *)
Definition get_knowledge_point (st : LearnerState) (nm : string) : option KnowledgePoint :=
  knowledge_points st !! nm.

(** [KnowledgePoint.is_mastered]: [actual_mastery >= target_mastery]. *)
Definition is_mastered (kp : KnowledgePoint) : bool :=
  Qle_bool (target_mastery kp) (actual_mastery kp).

(** [KnowledgePoint.get_teaching_stage]. *)
Definition get_teaching_stage (kp : KnowledgePoint) : nat :=
  let a := actual_mastery kp in
  if Qltb a (2 # 10) then 0%nat
  else if Qltb a (5 # 10) then 1%nat
  else if Qltb a (8 # 10) then 2%nat
  else 3%nat.

(** [LearnerState.list_knowledge_points]: the values of the dict. The gmap
    lists them in its own key order, not in insertion order; it is used
    below only where the order does not matter. *)
Definition list_knowledge_points (st : LearnerState) : list KnowledgePoint :=
  map snd (map_to_list (knowledge_points st)).

(** The dict returned by [get_progress_summary]. *)
Record ProgressSummary := {
  total : nat;
  mastered : nat;
  average_mastery : Q
}.

(** [LearnerState.get_progress_summary]; [sum] adds from [0] left to
    right. *)
Definition get_progress_summary (st : LearnerState) : ProgressSummary :=
  let kps := list_knowledge_points st in
  let total0 := size (knowledge_points st) in
  if Nat.eqb total0 0 then {| total := 0; mastered := 0; average_mastery := 0 |}
  else
    let mastered0 := length (List.filter is_mastered kps) in
    let sum0 := fold_left (fun acc kp => acc + actual_mastery kp) kps 0 in
    {| total := total0; mastered := mastered0;
       average_mastery := py_round3 (sum0 / inject_Z (Z.of_nat total0)) |}.

(** The name a ledger call is about. *)
Definition op_name (op : LedgerOp) : string :=
  match op with AddKP nm _ _ _ _ => nm | UpdateKP nm _ _ _ _ => nm end.

End Ledger.

(* ===================================================================== *)
(** ** [src/agents/knowledge_graph_agent.py]: [get_learning_path] *)
(* ===================================================================== *)

Module Graph.

(** The Python exception the function can raise. *)
Inductive PyError := KeyError (key : string).

Inductive result (A : Type) :=
| Ok (a : A)
| Error (e : PyError).
Arguments Ok {A} a.
Arguments Error {A} e.

(** A Python dict with string keys, in insertion order. *)
Definition dict (V : Type) := list (string * V).

Fixpoint dict_get {V} (k : string) (d : dict V) : option V :=
  match d with
  | [] => None
  | (k', v) :: d' => if String.eqb k k' then Some v else dict_get k d'
  end.

(** [d[k] = v]: replaces the value of an existing key in place, appends a
    new key at the end. *)
Fixpoint dict_set {V} (k : string) (v : V) (d : dict V) : dict V :=
  match d with
  | [] => [(k, v)]
  | (k', v') :: d' => if String.eqb k k' then (k', v) :: d' else (k', v') :: dict_set k v d'
  end.

(** [graph[k]] on the [defaultdict(list)]: the list, or [[]] for a missing
    key (the empty list the default factory would insert is never read). *)
Definition dd_get (k : string) (g : dict (list string)) : list string :=
  match dict_get k g with Some l => l | None => [] end.

(** [graph[k].append(v)]. *)
Definition dd_append (k v : string) (g : dict (list string)) : dict (list string) :=
  dict_set k (dd_get k g ++ [v]) g.

(** [in_degree = {node["id"]: 0 for node in nodes}]. *)
Fixpoint init_in_degree (acc : dict Z) (nodes : list string) : dict Z :=
  match nodes with
  | [] => acc
  | n :: rest => init_in_degree (dict_set n 0%Z acc) rest
  end.

(** The loop [for edge in edges]: [graph[source].append(target)] then
    [in_degree[target] += 1], which raises [KeyError] for an unknown target. *)
Fixpoint build_graph (edges : list (string * string)) (g : dict (list string))
    (in_degree : dict Z) : result (dict (list string) * dict Z) :=
  match edges with
  | [] => Ok (g, in_degree)
  | (src, tgt) :: rest =>
      let g' := dd_append src tgt g in
      match dict_get tgt in_degree with
      | None => Error (KeyError tgt)
      | Some k => build_graph rest g' (dict_set tgt (k + 1)%Z in_degree)
      end
  end.

(** The inner loop [for neighbor in graph[current]]:
    [in_degree[neighbor] -= 1], and [queue.append(neighbor)] when it
    reaches [0]. *)
Fixpoint relax (ns : list string) (in_degree : dict Z) (queue : list string)
    : result (dict Z * list string) :=
  match ns with
  | [] => Ok (in_degree, queue)
  | n :: rest =>
      match dict_get n in_degree with
      | None => Error (KeyError n)
      | Some k =>
          let in_degree' := dict_set n (k - 1)%Z in_degree in
          relax rest in_degree' (if Z.eqb (k - 1) 0 then queue ++ [n] else queue)
      end
  end.

(** [while queue:] with [popleft], [path.append(current)] and the inner
    loop. [fuel] bounds the iterations: a node is enqueued only when its
    in-degree becomes exactly [0] after seeding, which happens at most once,
    so [1 + len(nodes)] rounds are never exhausted. *)
Fixpoint kahn (fuel : nat) (g : dict (list string)) (in_degree : dict Z)
    (queue path : list string) : result (list string) :=
  match fuel with
  | O => Ok path
  | S fuel' =>
      match queue with
      | [] => Ok path
      | current :: rest =>
          match relax (dd_get current g) in_degree rest with
          | Error e => Error e
          | Ok (in_degree', queue') => kahn fuel' g in_degree' queue' (path ++ [current])
          end
      end
  end.

(** [queue = deque([nid for nid, deg in in_degree.items() if deg == 0])]. *)
Definition initial_queue (in_degree : dict Z) : list string :=
  map fst (List.filter (fun p => Z.eqb (snd p) 0) in_degree).

(** [KnowledgeGraphAgent.get_learning_path], on the node ids
    ([node["id"] for node in graph_data["nodes"]]) and the edges
    ([(edge["source"], edge["target"])]) in input order. *)
Definition get_learning_path (nodes : list string) (edges : list (string * string))
    : result (list string) :=
  let in_degree := init_in_degree [] nodes in
  match build_graph edges [] in_degree with
  | Error e => Error e
  | Ok (g, in_degree) =>
      kahn (S (length nodes)) g in_degree (initial_queue in_degree) []
  end.


(** *** [_validate_graph] *)

(** A JSON scalar of the graph data: a string, an integer, or a value of
    another kind identified by a tag (two such values are equal exactly
    when their tags are). *)
Inductive jval :=
| JStr (s : string)
| JInt (z : Z)
| JOther (tag : nat).

(** Python [==] on these values. *)
Definition jval_eqb (a b : jval) : bool :=
  match a, b with
  | JStr x, JStr y => String.eqb x y
  | JInt x, JInt y => Z.eqb x y
  | JOther x, JOther y => Nat.eqb x y
  | _, _ => false
  end.

(** [x in node_ids] on the set of node ids. *)
Definition jmem (x : jval) (ids : list jval) : bool := existsb (jval_eqb x) ids.

(** [key in d] on a dict. *)
Definition has_key {V} (k : string) (d : dict V) : bool :=
  match dict_get k d with Some _ => true | None => false end.

(** The dict [graph_data]: its ["nodes"] and ["edges"] entries when the
    keys are present; nodes and edges are dicts. *)
Record GraphData := {
  gd_nodes : option (list (dict jval));
  gd_edges : option (list (dict jval))
}.

Definition required_fields : list string := ["id"; "name"; "level"; "difficulty"].

(** The node loop of [_validate_graph]: [None] is [return False];
    otherwise the ids collected by [node_ids.add(node["id"])]. *)
Fixpoint validate_nodes (nodes : list (dict jval)) (node_ids : list jval)
    : option (list jval) :=
  match nodes with
  | [] => Some node_ids
  | node :: rest =>
      if forallb (fun field => has_key field node) required_fields then
        match dict_get "id" node with
        | Some id => validate_nodes rest (node_ids ++ [id])
        | None => None
        end
      else None
  end.

(** The edge loop of [_validate_graph]. *)
Fixpoint validate_edges (edges : list (dict jval)) (node_ids : list jval) : bool :=
  match edges with
  | [] => true
  | edge :: rest =>
      match dict_get "source" edge, dict_get "target" edge with
      | Some src, Some tgt =>
          if jmem src node_ids && jmem tgt node_ids then validate_edges rest node_ids
          else false
      | _, _ => false
      end
  end.

(** [KnowledgeGraphAgent._validate_graph] on a dict. *)
Definition validate_graph (data : GraphData) : bool :=
  match gd_nodes data, gd_edges data with
  | Some nodes, Some edges =>
      match validate_nodes nodes [] with
      | Some node_ids => validate_edges edges node_ids
      | None => false
      end
  | _, _ => false
  end.

(** *** [format_graph_summary] *)

(** A node as [format_graph_summary] reads it: [node["name"]] and
    [node.get("level")], for nodes whose name is a string and whose level
    is missing or an integer. *)
Record SummaryNode := {
  sn_name : string;
  sn_level : option Z
}.

(** The dict [levels] (integer keys, insertion order). *)
Fixpoint zdict_get (k : Z) (d : list (Z * list string)) : option (list string) :=
  match d with
  | [] => None
  | (k', v) :: d' => if Z.eqb k k' then Some v else zdict_get k d'
  end.

Fixpoint zdict_set (k : Z) (v : list string) (d : list (Z * list string))
    : list (Z * list string) :=
  match d with
  | [] => [(k, v)]
  | (k', v') :: d' => if Z.eqb k k' then (k', v) :: d' else (k', v') :: zdict_set k v d'
  end.

(** [for node in nodes: level = node.get("level", 0); ...;
    levels[level].append(node["name"])]. *)
Fixpoint group_levels (nodes : list SummaryNode) (levels : list (Z * list string))
    : list (Z * list string) :=
  match nodes with
  | [] => levels
  | node :: rest =>
      let level := match sn_level node with Some l => l | None => 0%Z end in
      let levels1 := match zdict_get level levels with
                     | None => zdict_set level [] levels
                     | Some _ => levels end in
      let cur := match zdict_get level levels1 with Some l => l | None => [] end in
      group_levels rest (zdict_set level (cur ++ [sn_name node]) levels1)
  end.

(** [sorted] on distinct integers: insertion sort. *)
Fixpoint insert_Z (z : Z) (l : list Z) : list Z :=
  match l with
  | [] => [z]
  | y :: l' => if Z.leb z y then z :: l else y :: insert_Z z l'
  end.

Definition sort_Z (l : list Z) : list Z := fold_right insert_Z [] l.

(** Python's [lst[i]] for an integer [i], negative indices counting from
    the end; [None] is [IndexError]. *)
Definition py_index {A} (l : list A) (i : Z) : option A :=
  if Z.leb 0 i then nth_error l (Z.to_nat i)
  else if Z.leb (- Z.of_nat (length l)) i then nth_error l (Z.to_nat (Z.of_nat (length l) + i))
  else None.

Definition level_names : list string :=
  ["🔰 基础层"; "📚 进阶层"; "🚀 高级层"; "🌟 专家层"].

(** [sep.join(l)]. *)
Fixpoint py_join (sep : string) (l : list string) : string :=
  match l with
  | [] => EmptyString
  | [x] => x
  | x :: rest => x +:+ sep +:+ py_join sep rest
  end.

(** The outcome of [format_graph_summary]: the text, or [IndexError]. *)
Inductive SummaryResult :=
| SummaryOk (text : string)
| SummaryIndexError.

(** The loop [for level in sorted(levels.keys())], appending to [acc]. *)
Fixpoint summary_lines (levels : list (Z * list string)) (keys : list Z) (acc : string)
    : SummaryResult :=
  match keys with
  | [] => SummaryOk acc
  | level :: rest =>
      match py_index level_names (Z.min level 3) with
      | None => SummaryIndexError
      | Some nm =>
          let names := match zdict_get level levels with Some l => l | None => [] end in
          summary_lines levels rest
            (acc +:+ "  " +:+ nm +:+ ": " +:+ py_join " → " names +:+ "
")
      end
  end.

(** [KnowledgeGraphAgent.format_graph_summary]; [n_edges] is
    [len(graph_data["edges"])]. *)
Definition format_graph_summary (nodes : list SummaryNode) (n_edges : nat) : SummaryResult :=
  let summary := "📊 知识图谱包含 " +:+ pretty (length nodes) +:+ " 个知识点，" +:+
                 pretty n_edges +:+ " 个依赖关系

" in
  let levels := group_levels nodes [] in
  let summary := summary +:+ "🎓 学习路径：
" in
  summary_lines levels (sort_Z (map fst levels)) summary.

(** *** Vocabulary of the ordering properties *)

(** [u -> v] is an edge. *)
Definition edge_rel (edges : list (string * string)) (u v : string) : Prop :=
  In (u, v) edges.

(** Number of edges into [v]. *)
Definition in_count (edges : list (string * string)) (v : string) : nat :=
  length (List.filter (fun e => String.eqb (snd e) v) edges).

(** [u] occurs in [path] strictly before [v]. *)
Definition precedes (path : list string) (u v : string) : Prop :=
  exists i j, (i < j)%nat /\ nth_error path i = Some u /\ nth_error path j = Some v.

Definition inb (x : string) (l : list string) : bool := existsb (String.eqb x) l.

(** Number of edges into [v] whose source is not in [done_]. *)
Definition cnt_rem (edges : list (string * string)) (done_ : list string) (v : string) : nat :=
  length (List.filter (fun e => String.eqb (snd e) v && negb (inb (fst e) done_)) edges).

(** Number of edges [u -> v]. *)
Definition cnt_edges (edges : list (string * string)) (u v : string) : nat :=
  length (List.filter (fun e => String.eqb (fst e) u && String.eqb (snd e) v) edges).

(** Targets of the edges out of [u], in edge order. *)
Definition succs (edges : list (string * string)) (u : string) : list string :=
  map snd (List.filter (fun e => String.eqb (fst e) u) edges).

(** The edge relation has no cycle: no node reaches itself through one or
    more edges. *)
Definition acyclic (edges : list (string * string)) : Prop :=
  forall v, ~ clos_trans string (edge_rel edges) v v.

End Graph.

(* ===================================================================== *)
(** ** Proofs about the mastery estimator *)
(* ===================================================================== *)

Module ScoringProofs.
Import Scoring.

Lemma Qltb_true (a b : Q) : Qltb a b = true <-> a < b.
Proof.
  unfold Qltb. rewrite negb_true_iff. split.
  - intros H. apply Qnot_le_lt. intros H'. apply Qle_bool_iff in H'. congruence.
  - intros H. destruct (Qle_bool b a) eqn:E; auto.
    apply Qle_bool_iff in E. exfalso. exact (Qlt_not_le _ _ H E).
Qed.

Lemma Qltb_false (a b : Q) : Qltb a b = false <-> b <= a.
Proof.
  unfold Qltb. rewrite negb_false_iff. apply Qle_bool_iff.
Qed.

Lemma Qle_bool_false (a b : Q) : Qle_bool a b = false <-> b < a.
Proof.
  split.
  - intros H. apply Qnot_le_lt. intros H'. apply Qle_bool_iff in H'. congruence.
  - intros H. destruct (Qle_bool a b) eqn:E; auto.
    apply Qle_bool_iff in E. exfalso. exact (Qlt_not_le _ _ H E).
Qed.

(** Turn every boolean comparison of the goal and context into a
    proposition. *)
Ltac qbools :=
  repeat match goal with
  | H : Qltb _ _ = true |- _ => apply Qltb_true in H
  | H : Qltb _ _ = false |- _ => apply Qltb_false in H
  | H : Qle_bool _ _ = true |- _ => apply Qle_bool_iff in H
  | H : Qle_bool _ _ = false |- _ => apply Qle_bool_false in H
  | H : (_ && _)%bool = true |- _ => apply andb_true_iff in H; destruct H
  end.

Ltac case_q :=
  match goal with
  | |- context [Qltb ?a ?b] => destruct (Qltb a b) eqn:?
  | |- context [Qle_bool ?a ?b] => destruct (Qle_bool a b) eqn:?
  end.

#[global] Instance Qltb_comp : Proper (Qeq ==> Qeq ==> eq) Qltb.
Proof.
  intros a a' Ha b b' Hb.
  destruct (Qltb a b) eqn:E1, (Qltb a' b') eqn:E2; auto; qbools;
    rewrite Ha, Hb in *; exfalso; eapply Qlt_not_le; eauto.
Qed.

#[global] Instance Qle_bool_comp' : Proper (Qeq ==> Qeq ==> eq) Qle_bool.
Proof.
  intros a a' Ha b b' Hb.
  destruct (Qle_bool a b) eqn:E1, (Qle_bool a' b') eqn:E2; auto; qbools;
    rewrite Ha, Hb in *; exfalso; eapply Qlt_not_le; eauto.
Qed.

Lemma py_max_Qmax (a b : Q) : py_max a b == Qmax a b.
Proof.
  unfold py_max. case_q; qbools.
  - symmetry. apply Q.max_r. lra.
  - symmetry. apply Q.max_l. lra.
Qed.

Lemma py_min_Qmin (a b : Q) : py_min a b == Qmin a b.
Proof.
  unfold py_min. case_q; qbools.
  - symmetry. apply Q.min_r. lra.
  - symmetry. apply Q.min_l. lra.
Qed.

Lemma clamp01_bounds (x : Q) : 0 <= clamp01 x <= 1.
Proof.
  unfold clamp01, py_min; destruct (Qltb x 1) eqn:?; unfold py_max; case_q; qbools; lra.
Qed.

Lemma clamp01_le (x c : Q) : x <= c -> 0 <= c -> clamp01 x <= c.
Proof.
  intros. unfold clamp01, py_min; destruct (Qltb x 1) eqn:?; unfold py_max; case_q; qbools; lra.
Qed.

Lemma clamp01_id (x : Q) : 0 <= x <= 1 -> clamp01 x == x.
Proof.
  intros. unfold clamp01, py_min; destruct (Qltb x 1) eqn:?; unfold py_max; case_q; qbools; lra.
Qed.

#[global] Instance round_half_even_comp : Proper (Qeq ==> eq) round_half_even.
Proof.
  intros q q' H. unfold round_half_even.
  rewrite (Qfloor_comp q q' H).
  assert (Hr : q - inject_Z (Qfloor q') == q' - inject_Z (Qfloor q')) by (rewrite H; reflexivity).
  rewrite (Qltb_comp _ _ Hr _ _ (Qeq_refl _)).
  rewrite (Qltb_comp _ _ (Qeq_refl _) _ _ Hr).
  reflexivity.
Qed.

#[global] Instance py_round4_comp : Proper (Qeq ==> eq) py_round4.
Proof.
  intros x y H. unfold py_round4. rewrite H. reflexivity.
Qed.

Lemma round_half_even_bounds (q : Q) (N : Z) :
  0 <= q -> q <= inject_Z N -> (0 <= round_half_even q <= N)%Z.
Proof.
  intros H0 HN. unfold round_half_even.
  pose proof (Qfloor_le q) as Hf. pose proof (Qlt_floor q) as Hf1.
  set (f := Qfloor q) in *. clearbody f.
  assert (Hf0 : (0 <= f)%Z).
  { assert (H : inject_Z (-1) < inject_Z f).
    { rewrite inject_Z_plus in Hf1. change (inject_Z 1) with 1 in Hf1.
      change (inject_Z (-1)) with (-1). lra. }
    rewrite <- Zlt_Qlt in H. lia. }
  assert (HfN : (f <= N)%Z).
  { rewrite Zle_Qle. eapply Qle_trans; eauto. }
  destruct (Z.eq_dec f N) as [E | E].
  - assert (Hq : q - inject_Z f == 0).
    { subst f. lra. }
    rewrite (Qltb_comp _ _ Hq _ _ (Qeq_refl _)). simpl. lia.
  - repeat (case_q; qbools); try destruct (Z.even f); lia.
Qed.

Lemma py_round4_bounds (x : Q) (N : Z) :
  0 <= x -> x <= N # 10000 -> 0 <= py_round4 x <= N # 10000.
Proof.
  intros H0 HN.
  assert (H1 : 0 <= x * 10000) by lra.
  assert (H2 : x * 10000 <= inject_Z N).
  { assert (E : inject_Z N == (N # 10000) * 10000).
    { unfold Qeq; simpl; lia. }
    rewrite E. lra. }
  destruct (round_half_even_bounds _ _ H1 H2) as [Ha Hb].
  unfold py_round4. split; unfold Qle; simpl; lia.
Qed.

Lemma new_mastery_bounds (e : ScoringEngine) A0 S d days b :
  0 <= new_mastery (calculate_new_mastery e A0 S d days b) <= 1.
Proof.
  unfold calculate_new_mastery.
  destruct b; simpl;
    match goal with |- context [py_round4 (clamp01 ?x)] =>
      pose proof (clamp01_bounds x) as [H0 H1] end;
    assert (H2 : 0 <= 1 <= 10000 # 10000) by (unfold Qle; simpl; lia);
    destruct (py_round4_bounds _ 10000 H0 (Qle_trans _ _ _ H1 (proj2 H2))) as [A B];
    (split; [exact A | eapply Qle_trans; [exact B | unfold Qle; simpl; lia]]).
Qed.

(** ** The enhanced update against the spec's formula *)

Lemma clamp01_spec (x : Q) : clamp01 x == SpecC1.clamp x.
Proof.
  unfold SpecC1.clamp. rewrite <- py_min_Qmin, <- py_max_Qmax. reflexivity.
Qed.

#[global] Instance spec_clamp_comp : Proper (Qeq ==> Qeq) SpecC1.clamp.
Proof.
  intros x y H. unfold SpecC1.clamp. rewrite H. reflexivity.
Qed.

Lemma enhanced_raw_eq e a s c td tf :
  enhanced_raw e a s c td tf =
  a * td + get_adaptive_learning_rate e (a * td) * ((s * c - a * td) * tf).
Proof.
  unfold enhanced_raw. destruct (Qltb _ 0); reflexivity.
Qed.

Lemma alpha_agrees (x y : Q) : x == y ->
  get_adaptive_learning_rate engine x = SpecC1.alpha y.
Proof.
  intros H. unfold get_adaptive_learning_rate, SpecC1.alpha.
  rewrite (Qltb_comp _ _ H (2 # 10) _ (Qeq_refl _)),
          (Qltb_comp _ _ H (5 # 10) _ (Qeq_refl _)),
          (Qltb_comp _ _ H (8 # 10) _ (Qeq_refl _)).
  repeat case_q; reflexivity.
Qed.

Lemma gamma_agrees (a a' s s' : Q) : a == a' -> s == s' ->
  calculate_tolerance_factor engine a s = SpecC1.gamma a' s'.
Proof.
  intros Ha Hs. unfold calculate_tolerance_factor, SpecC1.gamma. simpl.
  rewrite (Qle_bool_comp' _ _ (Qeq_refl (7 # 10)) _ _ Ha),
          (Qltb_comp _ _ Hs _ _ (Qeq_refl (5 # 10))),
          (Qle_bool_comp' _ _ Ha _ _ (Qeq_refl (3 # 10))),
          (Qltb_comp _ _ (Qeq_refl (8 # 10)) _ _ Hs).
  reflexivity.
Qed.

Lemma beta_agrees (d : option Z) :
  calculate_time_decay engine d == SpecC1.beta d.
Proof.
  destruct d as [d |]; simpl; [| reflexivity].
  destruct (Z.leb d 7); [reflexivity |]. apply py_max_Qmax.
Qed.

Lemma cap_agrees (t : TaskDifficulty) :
  get_difficulty_cap engine (Tier t) = SpecC1.cap t.
Proof. destruct t; reflexivity. Qed.

(** C1: for every old mastery [A0], score [S], tier [t] and elapsed-days
    value [d], the enhanced update of [calculate_new_mastery] returns
    [round(clamp(A_d + alpha(A_d) * (S_c * cap t - A_d) * gamma(A0_c, S_c)), 4)]
    with the clamps, the decay [beta], the staircase [alpha], the caps and
    the tolerance factor [gamma] of the spec ([SpecC1.enhanced_new_mastery]). *)
Theorem calculate_new_mastery_enhanced_formula (A0 S : Q) (t : TaskDifficulty)
    (d : option Z) :
  new_mastery (calculate_new_mastery engine A0 S (Tier t) d true)
  = SpecC1.enhanced_new_mastery A0 S t d.
Proof.
  unfold calculate_new_mastery, SpecC1.enhanced_new_mastery. cbn [new_mastery].
  apply py_round4_comp.
  pose proof (clamp01_spec A0) as Ha. pose proof (clamp01_spec S) as Hs.
  pose proof (beta_agrees d) as Hb.
  set (a := clamp01 A0) in *. set (a' := SpecC1.clamp A0) in *.
  set (s := clamp01 S) in *. set (s' := SpecC1.clamp S) in *.
  assert (Had : a * calculate_time_decay engine d == a' * SpecC1.beta d)
    by (rewrite Ha, Hb; reflexivity).
  rewrite clamp01_spec. apply spec_clamp_comp.
  rewrite enhanced_raw_eq, (alpha_agrees _ _ Had), (gamma_agrees _ _ _ _ Ha Hs),
    cap_agrees.
  rewrite Had, Hs. ring.
Qed.

(** ** Totality and clamping *)

(** C5: for every rational [old_mastery] and [task_score] (in range or not),
    every difficulty argument and both modes, [calculate_new_mastery] is a
    total function (every step of the source - [dict.get], [min], [max],
    arithmetic - is total, so the embedding needs no error result): the inputs
    are clamped to [[0,1]] before use, the returned [new_mastery] lies in
    [[0,1]], and a difficulty value that is not a tier gets the basic-code cap
    [0.7]. *)
Theorem calculate_new_mastery_total_clamped (A0 S : Q) (d : DifficultyArg)
    (days : option Z) (use_enhanced : bool) :
  let r := calculate_new_mastery engine A0 S d days use_enhanced in
  old_mastery r = clamp01 A0 /\ task_score r = clamp01 S /\
  0 <= old_mastery r <= 1 /\ 0 <= task_score r <= 1 /\
  0 <= new_mastery r <= 1 /\
  (forall v, d = OtherValue v -> difficulty_cap r = 7 # 10).
Proof.
  cbv zeta.
  pose proof (new_mastery_bounds engine A0 S d days use_enhanced) as Hn.
  unfold calculate_new_mastery in *.
  destruct use_enhanced; cbn [old_mastery task_score new_mastery difficulty_cap] in *;
    (split; [reflexivity | split; [reflexivity |]]);
    repeat split; try apply clamp01_bounds; try apply Hn;
    intros v ->; reflexivity.
Qed.

(** ** The cap bounds the enhanced update *)

Lemma time_decay_bounds (days : option Z) :
  1 # 10 <= calculate_time_decay engine days <= 1.
Proof.
  destruct days as [ds |]; simpl; [| lra].
  destruct (Z.leb ds 7) eqn:E; [lra |].
  apply Z.leb_gt in E.
  assert (H : 1 <= inject_Z (ds - 7)) by (change 1 with (inject_Z 1); rewrite <- Zle_Qle; lia).
  unfold py_max. case_q; qbools; lra.
Qed.

Lemma alpha_cases (x : Q) :
  let r := get_adaptive_learning_rate engine x in
  r = 40 # 100 \/ r = 35 # 100 \/ r = 25 # 100 \/ r = 15 # 100.
Proof.
  unfold get_adaptive_learning_rate. simpl. repeat case_q; simpl; tauto.
Qed.

Lemma gamma_cases (a s : Q) :
  let g := calculate_tolerance_factor engine a s in
  g = 5 # 10 \/ g = 6 # 10 \/ g = 1.
Proof.
  unfold calculate_tolerance_factor. simpl.
  destruct (_ && _)%bool; [tauto |]. destruct (_ && _)%bool; tauto.
Qed.

Lemma cap_cases (d : DifficultyArg) :
  let c := get_difficulty_cap engine d in
  c = 4 # 10 \/ c = 7 # 10 \/ c = 1.
Proof. destruct d as [[] |]; simpl; tauto. Qed.

Lemma round4_le_cap (d : DifficultyArg) (x : Q) :
  0 <= x -> x <= get_difficulty_cap engine d ->
  0 <= py_round4 x <= get_difficulty_cap engine d.
Proof.
  intros H0 H1.
  destruct (cap_cases d) as [E | [E | E]]; rewrite E in *;
  [ destruct (py_round4_bounds x 4000) as [A B]
  | destruct (py_round4_bounds x 7000) as [A B]
  | destruct (py_round4_bounds x 10000) as [A B] ];
  try assumption;
  try (eapply Qle_trans; [exact H1 | unfold Qle; simpl; lia]);
  (split; [exact A | eapply Qle_trans; [exact B | unfold Qle; simpl; lia]]).
Qed.

Lemma enhanced_step_le_cap (d : DifficultyArg) (A0 S : Q) (days : option Z) :
  A0 <= get_difficulty_cap engine d ->
  0 <= new_mastery (calculate_new_mastery engine A0 S d days true)
    <= get_difficulty_cap engine d.
Proof.
  intros HA. unfold calculate_new_mastery. cbn [new_mastery].
  apply round4_le_cap; [apply clamp01_bounds |].
  pose proof (cap_cases d) as Hc. pose proof (time_decay_bounds days) as Ht.
  assert (Hc0 : 0 <= get_difficulty_cap engine d) by (destruct Hc as [E|[E|E]]; rewrite E; lra).
  apply clamp01_le; [| exact Hc0].
  pose proof (clamp01_bounds A0) as Ha. pose proof (clamp01_le A0 _ HA Hc0) as Hac.
  pose proof (clamp01_bounds S) as Hs.
  rewrite enhanced_raw_eq.
  set (a := clamp01 A0) in *. set (s := clamp01 S) in *.
  set (td := calculate_time_decay engine days) in *.
  assert (Had : 0 <= a * td <= a) by (split; nra).
  pose proof (alpha_cases (a * td)) as Hal. pose proof (gamma_cases a s) as Hg.
  cbv zeta in Hal, Hg, Hc.
  set (ad := a * td) in *. clearbody ad.
  set (al := get_adaptive_learning_rate engine ad) in *.
  set (g := calculate_tolerance_factor engine a s) in *.
  set (c := get_difficulty_cap engine d) in *.
  clearbody al g c.
  destruct Hal as [-> | [-> | [-> | ->]]]; destruct Hg as [-> | [-> | ->]];
    destruct Hc as [-> | [-> | ->]]; nra.
Qed.


(** C6: from any starting mastery at most the cap of the difficulty, one
    enhanced update (after clamping and rounding) stays within [[0, cap]],
    whatever the score and the elapsed days; hence repeated enhanced updates
    at that difficulty, from [A0 <= cap], never exceed the cap. *)
Theorem enhanced_update_never_exceeds_cap (d : DifficultyArg) (A0 : Q)
    (steps : list (Q * option Z)) :
  A0 <= get_difficulty_cap engine d ->
  (forall S days,
     new_mastery (calculate_new_mastery engine A0 S d days true)
       <= get_difficulty_cap engine d) /\
  Forall (fun a => 0 <= a <= get_difficulty_cap engine d)
    (enhanced_trajectory engine d A0 steps).
Proof.
  intros HA. split.
  - intros S days. apply (enhanced_step_le_cap d A0 S days HA).
  - revert A0 HA. induction steps as [| [s days] rest IH]; intros A0 HA; simpl.
    + constructor.
    + pose proof (enhanced_step_le_cap d A0 s days HA) as H.
      constructor; [exact H |]. apply IH. apply H.
Qed.

Lemma enhanced_update_never_exceeds_cap_witness :
  0 <= get_difficulty_cap engine (Tier CONCEPT) /\
  Forall (fun a => 0 <= a <= get_difficulty_cap engine (Tier CONCEPT))
    (enhanced_trajectory engine (Tier CONCEPT) 0 [(1, None); (1, Some 30%Z); (1, None)]).
Proof.
  split.
  - unfold Qle; simpl; lia.
  - apply (enhanced_update_never_exceeds_cap (Tier CONCEPT) 0). unfold Qle; simpl; lia.
Defined.

(** ** Slip protection against the undamped and the legacy update *)

(** C4 as stated fails: at [A0 = 0.9], [ADVANCED], [S = 0.3], no decay, the
    legacy-mode change is [-0.18] and the enhanced change [-0.045]; neither
    ratio of the two is [0.5]. *)
Lemma slip_legacy_ratio_counterexample :
  ~ ((new_mastery (calculate_new_mastery engine (9 # 10) (3 # 10) (Tier ADVANCED) None false)
        - (9 # 10))
     / (new_mastery (calculate_new_mastery engine (9 # 10) (3 # 10) (Tier ADVANCED) None true)
        - (9 # 10)) == 1 # 2) /\
  ~ ((new_mastery (calculate_new_mastery engine (9 # 10) (3 # 10) (Tier ADVANCED) None true)
        - (9 # 10))
     / (new_mastery (calculate_new_mastery engine (9 # 10) (3 # 10) (Tier ADVANCED) None false)
        - (9 # 10)) == 1 # 2).
Proof.
  split; unfold Qeq; vm_compute; discriminate.
Qed.

(** C4 (amended): at [A0 = 0.9], [ADVANCED], [S = 0.3], no decay, the
    enhanced change [-0.045] is exactly half of the change the enhanced
    computation gives with [gamma = 1] ([-0.09]); the legacy change is
    [-0.18], four times the enhanced one. More generally, whenever the slip
    condition holds, the enhanced raw change is half of its [gamma = 1]
    counterpart. *)
Theorem slip_halves_enhanced_delta :
  (new_mastery (calculate_new_mastery engine (9 # 10) (3 # 10) (Tier ADVANCED) None true)
     - (9 # 10) == - (45 # 1000)) /\
  (enhanced_with_gamma engine (9 # 10) (3 # 10) (Tier ADVANCED) None 1 - (9 # 10)
     == - (9 # 100)) /\
  (new_mastery (calculate_new_mastery engine (9 # 10) (3 # 10) (Tier ADVANCED) None true)
     - (9 # 10)
   == (1 # 2) * (enhanced_with_gamma engine (9 # 10) (3 # 10) (Tier ADVANCED) None 1
                  - (9 # 10))) /\
  (new_mastery (calculate_new_mastery engine (9 # 10) (3 # 10) (Tier ADVANCED) None false)
     - (9 # 10)
   == 4 * (new_mastery (calculate_new_mastery engine (9 # 10) (3 # 10) (Tier ADVANCED) None true)
           - (9 # 10))) /\
  (forall (a s c td : Q),
     Qle_bool (7 # 10) a && Qltb s (5 # 10) = true ->
     enhanced_raw engine a s c td (calculate_tolerance_factor engine a s) - a * td
     == (1 # 2) * (enhanced_raw engine a s c td 1 - a * td)).
Proof.
  split; [unfold Qeq; vm_compute; reflexivity |].
  split; [unfold Qeq; vm_compute; reflexivity |].
  split; [unfold Qeq; vm_compute; reflexivity |].
  split; [unfold Qeq; vm_compute; reflexivity |].
  intros a s c td H. unfold calculate_tolerance_factor. simpl. rewrite H.
  rewrite !enhanced_raw_eq. ring.
Qed.

End ScoringProofs.

(* ===================================================================== *)
(** ** Proofs about the ledger *)
(* ===================================================================== *)

Module LedgerProofs.
Import Scoring Ledger.

(** Every stored [actual_mastery] lies in [[0,1]]. *)
Definition masteries_in_range (st : LearnerState) : Prop :=
  forall k kp, knowledge_points st !! k = Some kp -> 0 <= actual_mastery kp <= 1.

(** The calls the application makes: points created with an initial mastery
    in [[0,1]] and updates whose value is a [new_mastery] computed by
    [calculate_new_mastery] (as [EvaluationAgent.update_learner_state]
    passes [scoring_result.new_mastery]). *)
Definition op_from_estimator (op : LedgerOp) : Prop :=
  match op with
  | AddKP _ _ _ i _ => 0 <= i <= 1
  | UpdateKP _ v _ _ _ =>
      exists a s d days b, v = new_mastery (calculate_new_mastery engine a s d days b)
  end.

(** C3 as stated fails: the ledger stores the value it is handed, so an
    update with [1.5] leaves [actual_mastery = 1.5], outside [[0,1]]. *)
Lemma ledger_unclamped_counterexample :
  option_map actual_mastery
    (knowledge_points
       (run_ops empty_state [AddKP "x" (8 # 10) "" 0 "t0"; UpdateKP "x" (3 # 2) 1 "ok" "t1"])
     !! "x") = Some (3 # 2) /\
  ~ (3 # 2 <= 1).
Proof.
  split; [reflexivity | unfold Qle; simpl; lia].
Qed.

Lemma run_op_in_range (st : LearnerState) (op : LedgerOp) :
  masteries_in_range st -> op_from_estimator op -> masteries_in_range (run_op st op).
Proof.
  intros Hst Hop k kp. destruct op as [nm t nt i now | nm v s f now]; simpl in *.
  - unfold add_knowledge_point.
    destruct (knowledge_points st !! nm) as [kp0 |] eqn:E; simpl;
      rewrite lookup_insert; case_decide; subst.
    + intros [= <-]. simpl. exact (Hst _ _ E).
    + apply Hst.
    + intros [= <-]. simpl. exact Hop.
    + apply Hst.
  - unfold update_mastery.
    destruct (knowledge_points st !! nm) as [kp0 |] eqn:E; simpl; [| apply Hst].
    rewrite lookup_insert; case_decide; subst; [| apply Hst].
    intros [= <-]. simpl. destruct Hop as (a & s' & d & days & b & ->).
    apply ScoringProofs.new_mastery_bounds.
Qed.

(** C3 (amended): the ledger records values without clamping; the stored
    masteries stay in [[0,1]] along any sequence of [add_knowledge_point] and
    [update_mastery] calls whose initial masteries are in [[0,1]] and whose
    update values come from [calculate_new_mastery]. *)
Theorem ledger_masteries_in_range_from_estimator (st : LearnerState)
    (ops : list LedgerOp) :
  masteries_in_range st -> Forall op_from_estimator ops ->
  masteries_in_range (run_ops st ops).
Proof.
  revert st. induction ops as [| op rest IH]; intros st Hst Hops; simpl; [exact Hst |].
  inversion Hops as [| ? ? Hop Hrest]; subst.
  apply IH; [apply run_op_in_range |]; assumption.
Qed.

Lemma ledger_masteries_in_range_from_estimator_witness :
  masteries_in_range empty_state /\
  Forall op_from_estimator
    [AddKP "x" (8 # 10) "" 0 "t0";
     UpdateKP "x" (new_mastery (calculate_new_mastery engine 0 1 (Tier ADVANCED) None true))
       1 "ok" "t1"] /\
  masteries_in_range
    (run_ops empty_state
       [AddKP "x" (8 # 10) "" 0 "t0";
        UpdateKP "x" (new_mastery (calculate_new_mastery engine 0 1 (Tier ADVANCED) None true))
          1 "ok" "t1"]).
Proof.
  assert (H0 : masteries_in_range empty_state).
  { intros k kp H. simpl in H. rewrite lookup_empty in H. discriminate. }
  assert (H1 : Forall op_from_estimator
    [AddKP "x" (8 # 10) "" 0 "t0";
     UpdateKP "x" (new_mastery (calculate_new_mastery engine 0 1 (Tier ADVANCED) None true))
       1 "ok" "t1"]).
  { constructor; [simpl; split; unfold Qle; simpl; lia |].
    constructor; [| constructor]. simpl. exists 0, 1, (Tier ADVANCED), None, true.
    reflexivity. }
  split; [exact H0 | split; [exact H1 |]].
  apply ledger_masteries_in_range_from_estimator; assumption.
Defined.

(** C8: [update_mastery] on a name that is not in the ledger returns
    [False] and leaves the state, hence the whole knowledge-point map,
    unchanged. *)
Theorem update_mastery_unknown_name (st : LearnerState) (nm : string)
    (v s : Q) (f now : string) :
  knowledge_points st !! nm = None ->
  update_mastery st nm v s f now = (false, st).
Proof.
  intros H. unfold update_mastery. rewrite H. reflexivity.
Qed.

Lemma update_mastery_unknown_name_witness :
  knowledge_points empty_state !! "x" = None /\
  update_mastery empty_state "x" (1 # 2) 1 "ok" "t" = (false, empty_state).
Proof.
  assert (H : knowledge_points empty_state !! "x" = None) by reflexivity.
  split; [exact H | apply update_mastery_unknown_name; exact H].
Defined.

(** C9: on a name already in the ledger, [add_knowledge_point] changes only
    the target mastery and the note of the existing point: name,
    [actual_mastery], [history], [created_at] and [updated_at] are kept, the
    map changes at that name only, and [initial_mastery] is ignored. *)
Theorem add_knowledge_point_existing (st : LearnerState) (nm : string)
    (kp : KnowledgePoint) (target : Q) (nt : string) (i i' : Q) (now now' : string) :
  knowledge_points st !! nm = Some kp ->
  let '(kp', st') := add_knowledge_point st nm target nt i now in
  name kp' = name kp /\ actual_mastery kp' = actual_mastery kp /\
  history kp' = history kp /\ created_at kp' = created_at kp /\
  updated_at kp' = updated_at kp /\ target_mastery kp' = target /\
  knowledge_points st' = <[nm := kp']> (knowledge_points st) /\
  add_knowledge_point st nm target nt i' now' = (kp', st').
Proof.
  intros H. unfold add_knowledge_point. rewrite H. simpl.
  repeat split; reflexivity.
Qed.

Lemma add_knowledge_point_existing_witness :
  let st := snd (add_knowledge_point empty_state "x" (8 # 10) "n" (1 # 4) "t0") in
  knowledge_points st !! "x" =
    Some {| name := "x"; actual_mastery := 1 # 4; target_mastery := 8 # 10;
            note := "n"; history := []; created_at := "t0"; updated_at := "t0" |} /\
  (let '(kp', st') := add_knowledge_point st "x" (9 # 10) "" 1 "t1" in
   name kp' = "x" /\ actual_mastery kp' = 1 # 4 /\
   history kp' = [] /\ created_at kp' = "t0" /\
   updated_at kp' = "t0" /\ target_mastery kp' = 9 # 10 /\
   knowledge_points st' = <[ "x" := kp']> (knowledge_points st) /\
   add_knowledge_point st "x" (9 # 10) "" 0 "t2" = (kp', st')).
Proof.
  cbv zeta.
  assert (H : knowledge_points (snd (add_knowledge_point empty_state "x" (8 # 10) "n" (1 # 4) "t0"))
                !! "x" =
    Some {| name := "x"; actual_mastery := 1 # 4; target_mastery := 8 # 10;
            note := "n"; history := []; created_at := "t0"; updated_at := "t0" |})
    by reflexivity.
  split; [exact H |].
  exact (add_knowledge_point_existing _ "x" _ (9 # 10) "" 1 0 "t1" "t2" H).
Defined.

(** C10: on a name already in the ledger, [add_knowledge_point] overwrites
    [target_mastery] unconditionally and the note only when the note argument
    is non-empty; with the empty note the stored note is kept. *)
Theorem add_knowledge_point_note_kept_if_empty (st : LearnerState) (nm : string)
    (kp : KnowledgePoint) (target : Q) (nt : string) (i : Q) (now : string) :
  knowledge_points st !! nm = Some kp ->
  target_mastery (fst (add_knowledge_point st nm target nt i now)) = target /\
  (nt = "" -> note (fst (add_knowledge_point st nm target nt i now)) = note kp) /\
  (nt <> "" -> note (fst (add_knowledge_point st nm target nt i now)) = nt).
Proof.
  intros H. unfold add_knowledge_point. rewrite H. simpl.
  split; [reflexivity |]. split.
  - intros ->. reflexivity.
  - intros Hn. destruct nt; [contradiction | reflexivity].
Qed.

Lemma add_knowledge_point_note_kept_if_empty_witness :
  let st := snd (add_knowledge_point empty_state "x" (8 # 10) "n" 0 "t0") in
  knowledge_points st !! "x" =
    Some {| name := "x"; actual_mastery := 0; target_mastery := 8 # 10;
            note := "n"; history := []; created_at := "t0"; updated_at := "t0" |} /\
  target_mastery (fst (add_knowledge_point st "x" (1 # 2) "" 0 "t1")) = 1 # 2 /\
  ("" = "" -> note (fst (add_knowledge_point st "x" (1 # 2) "" 0 "t1")) = "n") /\
  ("" <> "" -> note (fst (add_knowledge_point st "x" (1 # 2) "" 0 "t1")) = "").
Proof.
  cbv zeta.
  assert (H : knowledge_points (snd (add_knowledge_point empty_state "x" (8 # 10) "n" 0 "t0"))
                !! "x" =
    Some {| name := "x"; actual_mastery := 0; target_mastery := 8 # 10;
            note := "n"; history := []; created_at := "t0"; updated_at := "t0" |})
    by reflexivity.
  split; [exact H |].
  exact (add_knowledge_point_note_kept_if_empty _ "x" _ (1 # 2) "" 0 "t1" H).
Defined.

End LedgerProofs.

(* ===================================================================== *)
(** ** Proofs about the dependency ordering *)
(* ===================================================================== *)

Module GraphProofs.
Import Graph.

Ltac streq :=
  repeat match goal with
  | |- context [String.eqb ?a ?b] => destruct (String.eqb_spec a b); subst
  | H : context [String.eqb ?a ?b] |- _ => destruct (String.eqb_spec a b); subst
  end.

(** *** Dictionaries *)

Lemma dict_get_set {V} (k k' : string) (v : V) (d : dict V) :
  dict_get k (dict_set k' v d) = if String.eqb k k' then Some v else dict_get k d.
Proof.
  induction d as [| [k0 v0] d IH]; simpl.
  - reflexivity.
  - destruct (String.eqb_spec k' k0) as [-> | Hne]; simpl.
    + destruct (String.eqb k k0); reflexivity.
    + rewrite IH. destruct (String.eqb_spec k k') as [-> | ?]; [| reflexivity].
      destruct (String.eqb_spec k' k0); [contradiction | reflexivity].
Qed.

Lemma dict_get_None {V} (k : string) (d : dict V) :
  dict_get k d = None <-> ~ In k (map fst d).
Proof.
  induction d as [| [k0 v0] d IH]; simpl; [tauto |].
  destruct (String.eqb_spec k k0) as [-> | Hne]; [split; [discriminate | tauto] |].
  rewrite IH. split; [intros H [E | H']; [congruence | tauto] | tauto].
Qed.

Lemma dict_keys_set_present {V} (k : string) (v : V) (d : dict V) :
  In k (map fst d) -> map fst (dict_set k v d) = map fst d.
Proof.
  induction d as [| [k0 v0] d IH]; simpl; [tauto |].
  intros H. destruct (String.eqb_spec k k0) as [-> | Hne]; simpl; [reflexivity |].
  f_equal. apply IH. destruct H; [congruence | assumption].
Qed.

Lemma dict_keys_set_absent {V} (k : string) (v : V) (d : dict V) :
  ~ In k (map fst d) -> map fst (dict_set k v d) = map fst d ++ [k].
Proof.
  induction d as [| [k0 v0] d IH]; simpl; [reflexivity |].
  intros H. destruct (String.eqb_spec k k0) as [-> | Hne]; simpl; [tauto |].
  f_equal. apply IH. tauto.
Qed.

Lemma dict_get_some_in {V} (k : string) (d : dict V) :
  In k (map fst d) -> exists x, dict_get k d = Some x.
Proof.
  intros H. destruct (dict_get k d) eqn:E; [eauto |].
  apply dict_get_None in E. contradiction.
Qed.

(** A dict with keys [V] (no duplicates) is determined by its lookups. *)
Lemma dict_repr {V} (f : string -> V) (vs : list string) (d : dict V) :
  map fst d = vs -> List.NoDup vs -> (forall v, In v vs -> dict_get v d = Some (f v)) ->
  d = map (fun v => (v, f v)) vs.
Proof.
  revert vs. induction d as [| [k x] d IH]; intros vs Hk Hnd Hget; simpl in *.
  - subst. reflexivity.
  - subst vs. inversion Hnd as [| ? ? Hnin Hnd']; subst.
    pose proof (Hget k (or_introl eq_refl)) as Hx. simpl in Hx.
    rewrite String.eqb_refl in Hx. injection Hx as ->.
    simpl. f_equal. apply IH; auto.
    intros v Hv. specialize (Hget v (or_intror Hv)). simpl in Hget.
    destruct (String.eqb_spec v k); [subst; contradiction | exact Hget].
Qed.

(** *** Building the in-degrees and the adjacency lists *)

Lemma init_in_degree_keys (acc : dict Z) (vs : list string) :
  List.NoDup vs -> (forall v, In v vs -> ~ In v (map fst acc)) ->
  map fst (init_in_degree acc vs) = map fst acc ++ vs.
Proof.
  revert acc. induction vs as [| n vs IH]; intros acc Hnd Hfresh; simpl.
  - rewrite app_nil_r. reflexivity.
  - inversion Hnd as [| ? ? Hnin Hnd']; subst.
    rewrite IH; auto.
    + rewrite dict_keys_set_absent by (apply Hfresh; left; reflexivity).
      rewrite <- app_assoc. reflexivity.
    + intros v Hv. rewrite dict_keys_set_absent by (apply Hfresh; left; reflexivity).
      rewrite in_app_iff. intros [H | [H | []]].
      * exact (Hfresh v (or_intror Hv) H).
      * subst. contradiction.
Qed.

Lemma init_in_degree_get (acc : dict Z) (vs : list string) (v : string) :
  dict_get v (init_in_degree acc vs) =
  if inb v vs then Some 0%Z else dict_get v acc.
Proof.
  revert acc. induction vs as [| n vs IH]; intros acc; simpl; [reflexivity |].
  rewrite IH, dict_get_set. unfold inb; simpl.
  destruct (String.eqb v n), (existsb (String.eqb v) vs); reflexivity.
Qed.

Lemma inb_true (x : string) (l : list string) : inb x l = true <-> In x l.
Proof.
  unfold inb. rewrite existsb_exists. split.
  - intros (y & Hy & E). apply String.eqb_eq in E. subst. exact Hy.
  - intros H. exists x. split; [exact H | apply String.eqb_refl].
Qed.

Lemma inb_false (x : string) (l : list string) : inb x l = false <-> ~ In x l.
Proof.
  rewrite <- inb_true. destruct (inb x l); split; congruence || tauto.
Qed.

Lemma dd_get_append (k s t : string) (g : dict (list string)) :
  dd_get k (dd_append s t g) = if String.eqb k s then dd_get k g ++ [t] else dd_get k g.
Proof.
  unfold dd_append. unfold dd_get at 1. rewrite dict_get_set.
  destruct (String.eqb_spec k s) as [-> | ?]; reflexivity.
Qed.

Lemma build_graph_spec (edges : list (string * string)) (g : dict (list string))
    (d : dict Z) :
  (forall e, In e edges -> In (snd e) (map fst d)) ->
  exists g' d', build_graph edges g d = Ok (g', d') /\
    map fst d' = map fst d /\
    (forall k, dd_get k g' = dd_get k g ++ succs edges k) /\
    (forall v, dict_get v d' =
       option_map (fun c => (c + Z.of_nat (in_count edges v))%Z) (dict_get v d)).
Proof.
  revert g d. induction edges as [| [s t] rest IH]; intros g d Hin; simpl.
  - exists g, d. split; [reflexivity |]. split; [reflexivity |]. split.
    + intros k. unfold succs. simpl. rewrite app_nil_r. reflexivity.
    + intros v. unfold in_count. simpl. destruct (dict_get v d); simpl; f_equal; lia.
  - assert (Ht : In t (map fst d)) by exact (Hin (s, t) (or_introl eq_refl)).
    destruct (dict_get_some_in _ _ Ht) as [k Hk]. rewrite Hk.
    destruct (IH (dd_append s t g) (dict_set t (k + 1)%Z d)) as (g' & d' & Hb & Hkeys & Hg & Hd).
    { intros e He. rewrite dict_keys_set_present by exact Ht. apply Hin. right. exact He. }
    exists g', d'. split; [exact Hb |]. split.
    { rewrite Hkeys. apply dict_keys_set_present. exact Ht. }
    split.
    + intros k'. rewrite Hg, dd_get_append. unfold succs. cbn [List.filter fst].
      destruct (String.eqb_spec s k') as [-> | Hne].
      * rewrite ?String.eqb_refl. cbn [map snd]. rewrite <- app_assoc. reflexivity.
      * destruct (String.eqb_spec k' s); [congruence | reflexivity].
    + intros v. rewrite Hd, dict_get_set. unfold in_count. simpl.
      destruct (String.eqb_spec v t) as [-> | Hne].
      * rewrite Hk, String.eqb_refl. simpl. f_equal. lia.
      * destruct (String.eqb_spec t v); [congruence |].
        destruct (dict_get v d); reflexivity.
Qed.

(** *** The relaxation loop *)

Lemma relax_spec (ns : list string) (d : dict Z) (q : list string) :
  (forall n, In n ns -> In n (map fst d)) ->
  (forall v c, dict_get v d = Some c -> (Z.of_nat (count_occ String.string_dec ns v) <= c)%Z) ->
  exists d' newly, relax ns d q = Ok (d', q ++ newly) /\
    map fst d' = map fst d /\
    (forall v, dict_get v d' =
       option_map (fun c => (c - Z.of_nat (count_occ String.string_dec ns v))%Z) (dict_get v d)) /\
    (forall v, In v newly <->
       exists c, dict_get v d = Some c /\ (0 < c)%Z /\ c = Z.of_nat (count_occ String.string_dec ns v)) /\
    List.NoDup newly.
Proof.
  revert d q. induction ns as [| n ns IH]; intros d q Hkeys Hbound; simpl.
  - exists d, []. rewrite app_nil_r. split; [reflexivity |]. split; [reflexivity |].
    split; [| split].
    + intros v. destruct (dict_get v d); simpl; f_equal; lia.
    + intros v. split; [intros [] | intros (c & _ & H1 & H2); lia].
    + constructor.
  - destruct (dict_get_some_in n d (Hkeys n (or_introl eq_refl))) as [k Hk].
    rewrite Hk.
    assert (Hkn : (Z.of_nat (S (count_occ String.string_dec ns n)) <= k)%Z).
    { specialize (Hbound n k Hk). simpl in Hbound.
      destruct (String.string_dec n n); [exact Hbound | congruence]. }
    set (d1 := dict_set n (k - 1)%Z d).
    set (q1 := if Z.eqb (k - 1) 0 then q ++ [n] else q).
    assert (Hk1 : map fst d1 = map fst d).
    { apply dict_keys_set_present. apply Hkeys. left. reflexivity. }
    destruct (IH d1 q1) as (d' & newly' & Hr & Hk' & Hget & Hin & Hnd).
    { intros m Hm. rewrite Hk1. apply Hkeys. right. exact Hm. }
    { intros v c Hv. unfold d1 in Hv. rewrite dict_get_set in Hv.
      destruct (String.eqb_spec v n) as [-> | Hne].
      - injection Hv as <-. lia.
      - specialize (Hbound v c Hv). simpl in Hbound.
        destruct (String.string_dec n v); [congruence | exact Hbound]. }
    exists d', ((if Z.eqb (k - 1) 0 then [n] else []) ++ newly').
    split.
    { rewrite Hr. unfold q1. destruct (Z.eqb (k - 1) 0); simpl;
        [rewrite <- app_assoc; reflexivity | reflexivity]. }
    split; [rewrite Hk'; exact Hk1 |].
    split; [| split].
    + intros v. rewrite Hget. unfold d1. rewrite dict_get_set. simpl.
      destruct (String.eqb_spec v n) as [-> | Hne].
      * rewrite Hk. simpl. destruct (String.string_dec n n); [| congruence]. f_equal. lia.
      * destruct (String.string_dec n v); [congruence |]. reflexivity.
    + intros v. rewrite in_app_iff, Hin. unfold d1. rewrite dict_get_set. simpl.
      destruct (String.eqb_spec v n) as [-> | Hne].
      * rewrite Hk. destruct (String.string_dec n n); [| congruence].
        destruct (Z.eqb_spec (k - 1) 0) as [E0 | E0]; simpl.
        -- split; [intros _; exists k; split; [reflexivity | lia] |].
           intros _. left. left. reflexivity.
        -- split.
           ++ intros [[] | (c & [= <-] & H1 & H2)]. exists k. split; [reflexivity | lia].
           ++ intros (c & [= <-] & H1 & H2). right. exists (k - 1)%Z. split; [reflexivity | lia].
      * destruct (String.string_dec n v); [congruence |].
        destruct (Z.eqb (k - 1) 0); simpl.
        -- split; [intros [[E | []] | H]; [congruence | exact H] | intros H; right; exact H].
        -- split; [intros [[] | H]; exact H | intros H; right; exact H].
    + destruct (Z.eqb_spec (k - 1) 0) as [E0 | E0]; simpl; [| exact Hnd].
      constructor; [| exact Hnd].
      rewrite Hin. unfold d1. rewrite dict_get_set, String.eqb_refl.
      intros (c & [= <-] & H1 & _). lia.
Qed.

(** *** Counting edges *)

Lemma inb_app_single (x cur : string) (P : list string) :
  inb x (P ++ [cur]) = (inb x P || String.eqb x cur)%bool.
Proof.
  unfold inb. rewrite existsb_app. simpl. rewrite orb_false_r. reflexivity.
Qed.

Lemma count_succs (E : list (string * string)) (u v : string) :
  count_occ String.string_dec (succs E u) v = cnt_edges E u v.
Proof.
  unfold succs, cnt_edges. induction E as [| [a b] E IH]; [reflexivity |].
  cbn [List.filter fst snd].
  destruct (String.eqb_spec a u); simpl.
  - destruct (String.string_dec b v), (String.eqb_spec b v); simpl; try congruence; lia.
  - exact IH.
Qed.

Lemma cnt_rem_split (E : list (string * string)) (P : list string) (cur v : string) :
  ~ In cur P ->
  cnt_rem E P v = (cnt_rem E (P ++ [cur]) v + cnt_edges E cur v)%nat.
Proof.
  intros Hcur. unfold cnt_rem, cnt_edges.
  induction E as [| [a b] E IH]; [reflexivity |].
  cbn [List.filter fst snd]. rewrite inb_app_single.
  destruct (inb a P) eqn:Ha;
    destruct (String.eqb_spec b v), (String.eqb_spec a cur); simpl; try lia.
  subst. apply inb_true in Ha. contradiction.
Qed.

Lemma cnt_rem_nil (E : list (string * string)) (v : string) :
  cnt_rem E [] v = in_count E v.
Proof.
  unfold cnt_rem, in_count. induction E as [| [a b] E IH]; [reflexivity |].
  cbn [List.filter fst snd]. change (negb (inb a [])) with true. rewrite andb_true_r.
  destruct (String.eqb b v); cbn [length]; lia.
Qed.

Lemma cnt_rem_zero_pred (E : list (string * string)) (P : list string) (u v : string) :
  cnt_rem E P v = 0%nat -> In (u, v) E -> In u P.
Proof.
  unfold cnt_rem. induction E as [| [a b] E IH]; [intros _ [] |].
  cbn [List.filter fst snd]. intros H [Heq | Hin].
  - injection Heq as -> ->. rewrite String.eqb_refl in H.
    destruct (inb u P) eqn:Hu; [apply inb_true; exact Hu | discriminate].
  - apply IH; [| exact Hin]. destruct (_ && _)%bool; [discriminate | exact H].
Qed.

Lemma cnt_rem_pos_find (E : list (string * string)) (P : list string) (v : string) :
  cnt_rem E P v <> 0%nat ->
  exists e, find (fun e => String.eqb (snd e) v && negb (inb (fst e) P)) E = Some e.
Proof.
  intros H. destruct (find _ E) as [e |] eqn:F; [eauto |].
  exfalso. apply H. unfold cnt_rem.
  assert (Hf := find_none _ _ F).
  clear F H. induction E as [| e E IH]; [reflexivity |].
  simpl. rewrite (Hf e (or_introl eq_refl)). apply IH.
  intros x Hx. apply Hf. right. exact Hx.
Qed.

(** *** A walk through a finite set repeats a node *)

Lemma pigeonhole (n : nat) :
  forall (Sl : list string) (w : nat -> string),
  (length Sl <= n)%nat -> (forall i, (i <= n)%nat -> In (w i) Sl) ->
  exists i j, (i < j <= n)%nat /\ w i = w j.
Proof.
  induction n as [| m IH]; intros Sl w Hlen Hw.
  - destruct Sl; simpl in Hlen; [destruct (Hw 0%nat (le_n 0)) | lia].
  - destruct (existsb (fun j => String.eqb (w j) (w 0%nat)) (seq 1 (S m))) eqn:Ex.
    + apply existsb_exists in Ex as (j & Hj & Ej).
      apply in_seq in Hj. apply String.eqb_eq in Ej.
      exists 0%nat, j. split; [lia | symmetry; exact Ej].
    + assert (Hne : forall j, (1 <= j <= S m)%nat -> w j <> w 0%nat).
      { intros j Hj E. assert (Hin : In j (seq 1 (S m))) by (apply in_seq; lia).
        assert (existsb (fun j => String.eqb (w j) (w 0%nat)) (seq 1 (S m)) = true).
        { apply existsb_exists. exists j. split; [exact Hin | apply String.eqb_eq; exact E]. }
        congruence. }
      assert (H0 : In (w 0%nat) Sl) by (apply Hw; lia).
      pose proof (remove_length_lt String.string_dec Sl (w 0%nat) H0) as Hlt.
      destruct (IH (remove String.string_dec (w 0%nat) Sl) (fun i => w (S i))) as (i & j & Hij & E).
      * lia.
      * intros i Hi. apply in_in_remove; [apply Hne; lia | apply Hw; lia].
      * exists (S i), (S j). split; [lia | exact E].
Qed.

Lemma dict_get_some_key {V} (k : string) (d : dict V) (x : V) :
  dict_get k d = Some x -> In k (map fst d).
Proof.
  intros H. destruct (in_dec String.string_dec k (map fst d)) as [Hin | Hout]; [exact Hin |].
  apply dict_get_None in Hout. congruence.
Qed.

Lemma precedes_app (P : list string) (x u v : string) :
  precedes P u v -> precedes (P ++ [x]) u v.
Proof.
  intros (i & j & Hij & Hi & Hj).
  assert (Hjl : (j < length P)%nat) by (apply nth_error_Some; congruence).
  exists i, j. split; [exact Hij |].
  split; rewrite nth_error_app1 by lia; assumption.
Qed.

Lemma Z_of_nat_eqb_0 (n : nat) : Z.eqb (Z.of_nat n) 0 = Nat.eqb n 0.
Proof. destruct n; reflexivity. Qed.

(** *** The Kahn loop *)

Section Kahn.

Variable V : list string.
Variable E : list (string * string).
Hypothesis HV : List.NoDup V.
Hypothesis HEt : forall u v, In (u, v) E -> In v V.
Variable g : dict (list string).
Hypothesis Hg : forall k, dd_get k g = succs E k.
Variable seed : list string.

(** The loop invariant: processed nodes [P], queue [Q] and in-degrees [d]. *)
Record Inv (P Q : list string) (d : dict Z) : Prop := {
  inv_keys : map fst d = V;
  inv_get : forall v, In v V -> dict_get v d = Some (Z.of_nat (cnt_rem E P v));
  inv_nodup : List.NoDup (P ++ Q);
  inv_incl : forall x, In x (P ++ Q) -> In x V;
  inv_zero : forall v, In v V -> (In v (P ++ Q) <-> cnt_rem E P v = 0%nat);
  inv_order : forall u v, In (u, v) E -> In v P -> precedes P u v;
  inv_seed : exists X, P ++ Q = seed ++ X
}.

Lemma kahn_step (P rest : list string) (cur : string) (d : dict Z) :
  Inv P (cur :: rest) d ->
  exists d' newly, relax (succs E cur) d rest = Ok (d', rest ++ newly) /\
    Inv (P ++ [cur]) (rest ++ newly) d'.
Proof.
  intros [Hkeys Hget Hnd Hincl Hzero Hord Hseed].
  assert (Hcur : ~ In cur P).
  { intros H. apply (List.NoDup_remove_2 P rest cur Hnd). apply in_or_app. left. exact H. }
  assert (HcurV : In cur V) by (apply Hincl; apply in_or_app; right; left; reflexivity).
  assert (Hcur0 : cnt_rem E P cur = 0%nat).
  { apply Hzero; [exact HcurV |]. apply in_or_app. right. left. reflexivity. }
  destruct (relax_spec (succs E cur) d rest) as (d' & newly & Hr & Hk' & Hget' & Hin' & Hnd').
  { intros n Hn. rewrite Hkeys. unfold succs in Hn. apply in_map_iff in Hn as ([a b] & <- & Hab).
    apply filter_In in Hab as [Hab _]. exact (HEt a b Hab). }
  { intros v c Hv. assert (HvV : In v V) by (rewrite <- Hkeys; eapply dict_get_some_key; eauto).
    rewrite Hget in Hv by exact HvV. injection Hv as <-.
    rewrite count_succs, (cnt_rem_split E P cur v Hcur). lia. }
  assert (Hnew : forall v, In v V -> In v newly <->
            (0 < cnt_rem E P v)%nat /\ cnt_rem E P v = cnt_edges E cur v).
  { intros v HvV. rewrite Hin', Hget by exact HvV. rewrite count_succs. split.
    - intros (c & [= <-] & H1 & H2). lia.
    - intros [H1 H2]. exists (Z.of_nat (cnt_rem E P v)). split; [reflexivity | lia]. }
  assert (HnewV : forall v, In v newly -> In v V).
  { intros v Hv. apply Hin' in Hv as (c & Hc & _). rewrite <- Hkeys.
    eapply dict_get_some_key; eauto. }
  assert (Happ : (P ++ [cur]) ++ rest ++ newly = (P ++ cur :: rest) ++ newly)
    by (rewrite <- !app_assoc; reflexivity).
  exists d', newly. split; [exact Hr |]. constructor.
  - rewrite Hk'. exact Hkeys.
  - intros v HvV. rewrite Hget', Hget by exact HvV. simpl.
    rewrite count_succs, (cnt_rem_split E P cur v Hcur). f_equal. lia.
  - rewrite Happ. apply List.NoDup_app; [exact Hnd | exact Hnd' |].
    intros a Ha Hb. pose proof (HnewV a Hb) as HaV.
    apply (Hnew a HaV) in Hb as [Hb _]. apply (Hzero a HaV) in Ha. lia.
  - intros x. rewrite Happ, in_app_iff. intros [H | H]; [apply Hincl | apply HnewV]; exact H.
  - intros v HvV. rewrite Happ, in_app_iff, (Hzero v HvV), (Hnew v HvV).
    rewrite (cnt_rem_split E P cur v Hcur). lia.
  - intros u v Huv Hv. apply in_app_or in Hv as [Hv | [<- | []]].
    + apply precedes_app. apply Hord; assumption.
    + pose proof (cnt_rem_zero_pred E P u cur Hcur0 Huv) as Hu.
      apply In_nth_error in Hu as [i Hi].
      assert (Hil : (i < length P)%nat) by (apply nth_error_Some; congruence).
      exists i, (length P). split; [exact Hil |]. split.
      * rewrite nth_error_app1 by exact Hil. exact Hi.
      * rewrite nth_error_app2 by lia. rewrite Nat.sub_diag. reflexivity.
  - destruct Hseed as [X HX]. exists (X ++ newly). rewrite Happ, HX, app_assoc. reflexivity.
Qed.

Lemma kahn_loop (fuel : nat) :
  forall P Q d, Inv P Q d -> (length V < length P + fuel)%nat ->
  exists Pf d', kahn fuel g d Q P = Ok Pf /\ Inv Pf [] d'.
Proof.
  induction fuel as [| f IH]; intros P Q d I Hlen.
  - exfalso. assert (HP : List.NoDup P) by exact (List.NoDup_app_remove_r _ _ (inv_nodup _ _ _ I)).
    assert (Hinc : incl P V) by (intros x Hx; apply (inv_incl _ _ _ I); apply in_or_app; left; exact Hx).
    pose proof (NoDup_incl_length HP Hinc). lia.
  - destruct Q as [| cur rest]; simpl.
    + exists P, d. split; [reflexivity | exact I].
    + rewrite Hg. destruct (kahn_step P rest cur d I) as (d' & newly & Hr & I').
      rewrite Hr. apply (IH _ _ _ I'). rewrite length_app. simpl. lia.
Qed.

Lemma kahn_complete (P : list string) (d : dict Z) :
  Inv P [] d -> (forall u v, In (u, v) E -> In u V) -> acyclic E ->
  forall v, In v V -> In v P.
Proof.
  intros I HEs Hac v HvV.
  destruct (in_dec String.string_dec v P) as [Hin | Hout]; [exact Hin | exfalso].
  set (next := fun x =>
    match find (fun e => String.eqb (snd e) x && negb (inb (fst e) P)) E with
    | Some e => fst e | None => x end).
  assert (Hnext : forall x, In x V -> ~ In x P ->
            (In (next x) V /\ ~ In (next x) P) /\ edge_rel E (next x) x).
  { intros x HxV HxP.
    assert (Hc : cnt_rem E P x <> 0%nat).
    { intros H0. apply HxP. pose proof (proj2 (inv_zero _ _ _ I x HxV) H0) as H.
      rewrite app_nil_r in H. exact H. }
    destruct (cnt_rem_pos_find E P x Hc) as [[a b] F].
    pose proof (find_some _ _ F) as [Hab Hf]. cbn [fst snd] in Hf.
    apply andb_prop in Hf as [Hb Ha]. apply String.eqb_eq in Hb. subst b.
    unfold next. rewrite F. cbn [fst].
    destruct (inb a P) eqn:HaP; [discriminate |].
    split; [split; [exact (HEs a x Hab) | apply inb_false; exact HaP] | exact Hab]. }
  set (walk := fun k => Nat.iter k next v).
  assert (HwS : forall k, walk (S k) = next (walk k)) by reflexivity.
  assert (Hwalk : forall k, In (walk k) V /\ ~ In (walk k) P).
  { induction k as [| k IH]; [split; assumption |].
    rewrite HwS. exact (proj1 (Hnext _ (proj1 IH) (proj2 IH))). }
  assert (Hchain : forall m i, clos_trans string (edge_rel E) (walk (i + S m)%nat) (walk i)).
  { induction m as [| m IH]; intros i.
    - rewrite Nat.add_1_r, HwS. apply t_step.
      exact (proj2 (Hnext _ (proj1 (Hwalk i)) (proj2 (Hwalk i)))).
    - rewrite <- Nat.add_succ_comm, Nat.add_succ_l, HwS.
      apply t_trans with (walk (i + S m)%nat); [| apply IH].
      apply t_step. exact (proj2 (Hnext _ (proj1 (Hwalk _)) (proj2 (Hwalk _)))). }
  destruct (pigeonhole (length V) V walk (le_n _) (fun i _ => proj1 (Hwalk i)))
    as (i & j & Hij & Ew).
  apply (Hac (walk i)).
  replace j with (i + S (j - i - 1))%nat in Ew by lia.
  rewrite Ew at 1. apply Hchain.
Qed.

Lemma kahn_result (d : dict Z) :
  Inv [] seed d ->
  exists Pf, kahn (S (length V)) g d seed [] = Ok Pf /\ List.NoDup Pf /\
    (forall x, In x Pf -> In x V) /\
    (forall u v, In (u, v) E -> In v Pf -> precedes Pf u v) /\
    firstn (length seed) Pf = seed /\
    ((forall u v, In (u, v) E -> In u V) -> acyclic E -> forall v, In v V -> In v Pf).
Proof.
  intros I. destruct (kahn_loop (S (length V)) [] seed d I) as (Pf & d' & Hk & I'); [simpl; lia |].
  exists Pf. split; [exact Hk |].
  pose proof (inv_nodup _ _ _ I') as Hnd. rewrite app_nil_r in Hnd.
  split; [exact Hnd |]. split.
  { intros x Hx. apply (inv_incl _ _ _ I'). rewrite app_nil_r. exact Hx. }
  split; [exact (inv_order _ _ _ I') |]. split.
  - destruct (inv_seed _ _ _ I') as [X HX]. rewrite app_nil_r in HX. rewrite HX.
    rewrite firstn_app, Nat.sub_diag, firstn_O, firstn_all, app_nil_r. reflexivity.
  - intros HEs Hac. exact (kahn_complete Pf d' I' HEs Hac).
Qed.

End Kahn.

(** *** From the source's set-up to the invariant *)

Lemma initial_queue_repr (E : list (string * string)) (V : list string) :
  initial_queue (map (fun v => (v, Z.of_nat (in_count E v))) V) =
  List.filter (fun v => Nat.eqb (in_count E v) 0) V.
Proof.
  unfold initial_queue. induction V as [| v V IH]; [reflexivity |].
  cbn [map List.filter snd]. rewrite Z_of_nat_eqb_0.
  destruct (Nat.eqb (in_count E v) 0); cbn [map fst]; rewrite IH; reflexivity.
Qed.

(** The state reached by [get_learning_path] just before the [while queue]
    loop: the built adjacency lists, the in-degree dictionary and the queue. *)
Lemma get_learning_path_setup (V : list string) (E : list (string * string)) :
  List.NoDup V -> (forall u v, In (u, v) E -> In v V) ->
  exists g d, build_graph E [] (init_in_degree [] V) = Ok (g, d) /\
    (forall k, dd_get k g = succs E k) /\
    d = map (fun v => (v, Z.of_nat (in_count E v))) V.
Proof.
  intros HV HEt.
  assert (Hk0 : map fst (init_in_degree [] V) = V).
  { rewrite init_in_degree_keys; [reflexivity | exact HV | intros v _ []]. }
  destruct (build_graph_spec E [] (init_in_degree [] V)) as (g & d & Hb & Hkeys & Hg & Hd).
  { intros [u v] He. rewrite Hk0. exact (HEt u v He). }
  exists g, d. split; [exact Hb |]. split; [intros k; rewrite Hg; reflexivity |].
  apply dict_repr; [rewrite Hkeys; exact Hk0 | exact HV |].
  intros v Hv. rewrite Hd, init_in_degree_get.
  replace (inb v V) with true by (symmetry; apply inb_true; exact Hv). reflexivity.
Qed.

Lemma initial_inv (V : list string) (E : list (string * string)) :
  List.NoDup V ->
  Inv V E (List.filter (fun v => Nat.eqb (in_count E v) 0) V) []
      (List.filter (fun v => Nat.eqb (in_count E v) 0) V)
      (map (fun v => (v, Z.of_nat (in_count E v))) V).
Proof.
  intros HV. constructor.
  - rewrite map_map. simpl. apply map_id.
  - intros v Hv. rewrite cnt_rem_nil. clear HV. induction V as [| x V IH]; [destruct Hv |].
    simpl. destruct (String.eqb_spec v x) as [-> | Hne]; [reflexivity |].
    apply IH. destruct Hv as [-> | Hv]; [congruence | exact Hv].
  - apply List.NoDup_filter. exact HV.
  - intros x Hx. apply filter_In in Hx as [Hx _]. exact Hx.
  - intros v Hv. simpl. rewrite filter_In, cnt_rem_nil, Nat.eqb_eq. tauto.
  - intros u v _ [].
  - exists []. rewrite app_nil_r. reflexivity.
Qed.

(** The result of [get_learning_path] on a node list without duplicates
    whose edges all end at declared nodes. *)
Lemma get_learning_path_spec (V : list string) (E : list (string * string)) :
  List.NoDup V -> (forall u v, In (u, v) E -> In v V) ->
  exists path, get_learning_path V E = Ok path /\ List.NoDup path /\
    (forall x, In x path -> In x V) /\
    (forall u v, In (u, v) E -> In v path -> precedes path u v) /\
    firstn (length (List.filter (fun v => Nat.eqb (in_count E v) 0) V)) path =
      List.filter (fun v => Nat.eqb (in_count E v) 0) V /\
    ((forall u v, In (u, v) E -> In u V) -> acyclic E -> forall v, In v V -> In v path).
Proof.
  intros HV HEt.
  destruct (get_learning_path_setup V E HV HEt) as (g & d & Hb & Hg & ->).
  unfold get_learning_path. rewrite Hb, initial_queue_repr.
  exact (kahn_result V E HEt g Hg _ _ (initial_inv V E HV)).
Qed.

(** [precedes] along a path without duplicates is transitive and irreflexive,
    so edges that all go forward along such a path form no cycle. *)
Lemma acyclic_of_precedes (P : list string) (E : list (string * string)) :
  List.NoDup P -> (forall u v, In (u, v) E -> precedes P u v) -> acyclic E.
Proof.
  intros Hnd Hfw.
  assert (Hct : forall u v, clos_trans string (edge_rel E) u v -> precedes P u v).
  { intros u v H. induction H as [u v Huv | u w v _ IH1 _ IH2]; [exact (Hfw u v Huv) |].
    destruct IH1 as (i & j & Hij & Hi & Hj). destruct IH2 as (k & l & Hkl & Hk & Hl).
    assert (j = k).
    { apply (proj1 (NoDup_nth_error P) Hnd); [apply nth_error_Some; congruence | congruence]. }
    subst k. exists i, l. split; [lia | split; assumption]. }
  intros v Hv. destruct (Hct v v Hv) as (i & j & Hij & Hi & Hj).
  assert (i = j) by (apply (proj1 (NoDup_nth_error P) Hnd); [apply nth_error_Some; congruence | congruence]).
  lia.
Qed.

(** An unknown edge target makes [build_graph] raise [KeyError]. *)
Lemma build_graph_unknown_target (E : list (string * string)) :
  forall g d, (exists u v, In (u, v) E /\ ~ In v (map fst d)) ->
  exists k, build_graph E g d = Error (KeyError k) /\ ~ In k (map fst d).
Proof.
  induction E as [| [s t] rest IH]; intros g d (u & v & Hin & Hv); [destruct Hin |].
  simpl. destruct (dict_get t d) as [k |] eqn:Ht.
  - destruct Hin as [[= -> ->] | Hin].
    + exfalso. apply Hv. eapply dict_get_some_key. exact Ht.
    + assert (Htk : In t (map fst d)) by (eapply dict_get_some_key; exact Ht).
      destruct (IH (dd_append s t g) (dict_set t (k + 1)%Z d)) as (k' & Hb & Hk').
      { exists u, v. rewrite dict_keys_set_present by exact Htk. split; assumption. }
      exists k'. rewrite dict_keys_set_present in Hk' by exact Htk. split; assumption.
  - exists t. split; [reflexivity |]. intros Htk.
    destruct (dict_get_some_in _ _ Htk) as [x Hx]. congruence.
Qed.

Lemma NoDup_ABC : List.NoDup ["A"; "B"; "C"]%string.
Proof. repeat constructor; simpl; intuition discriminate. Qed.

Lemma NoDup_AB : List.NoDup ["A"; "B"]%string.
Proof. repeat constructor; simpl; intuition discriminate. Qed.

Lemma chain_ABC_acyclic : acyclic [("A", "B"); ("B", "C")]%string.
Proof.
  apply (acyclic_of_precedes ["A"; "B"; "C"]%string); [exact NoDup_ABC |].
  intros u v [H | [H | []]]; injection H as <- <-;
    [exists 0%nat, 1%nat | exists 1%nat, 2%nat]; repeat split; lia.
Qed.

(** *** C7 *)

(** C7: on a node list without duplicates and an acyclic edge list whose
    endpoints are all declared nodes, [get_learning_path] returns (without
    error) a permutation of the nodes, so each node exactly once; the source
    of every edge comes before its target; and the path starts with the
    zero-in-degree nodes in the order of the node list, which is the order
    the queue is seeded in. The result is a function of the input, so it is
    the same on identical input. For nodes [A,B,C] and edges
    [(A,B),(B,C)] it is exactly [A,B,C]. *)
Theorem get_learning_path_topological_order (V : list string) (E : list (string * string))
    (HV : List.NoDup V) (HE : forall u v, In (u, v) E -> In u V /\ In v V)
    (Hac : acyclic E) :
  (exists path, get_learning_path V E = Ok path /\ Permutation path V /\
     (forall u v, In (u, v) E -> precedes path u v) /\
     firstn (length (List.filter (fun v => Nat.eqb (in_count E v) 0) V)) path =
       List.filter (fun v => Nat.eqb (in_count E v) 0) V) /\
  get_learning_path ["A"; "B"; "C"]%string [("A", "B"); ("B", "C")]%string =
    Ok ["A"; "B"; "C"]%string.
Proof.
  split; [| reflexivity].
  destruct (get_learning_path_spec V E HV (fun u v H => proj2 (HE u v H)))
    as (path & Hok & Hnd & Hincl & Hord & Hseed & Hcomp).
  pose proof (Hcomp (fun u v H => proj1 (HE u v H)) Hac) as Hall.
  exists path. split; [exact Hok |]. split.
  - apply Stdlib.Sorting.Permutation.NoDup_Permutation; [exact Hnd | exact HV |].
    intros x. split; [apply Hincl | apply Hall].
  - split; [| exact Hseed].
    intros u v H. apply Hord; [exact H | apply Hall; exact (proj2 (HE u v H))].
Qed.

Lemma get_learning_path_topological_order_witness :
  (List.NoDup ["A"; "B"; "C"]%string /\
   (forall u v, In (u, v) [("A", "B"); ("B", "C")]%string ->
      In u ["A"; "B"; "C"]%string /\ In v ["A"; "B"; "C"]%string) /\
   acyclic [("A", "B"); ("B", "C")]%string) /\
  ((exists path,
      get_learning_path ["A"; "B"; "C"]%string [("A", "B"); ("B", "C")]%string = Ok path /\
      Permutation path ["A"; "B"; "C"]%string /\
      (forall u v, In (u, v) [("A", "B"); ("B", "C")]%string -> precedes path u v) /\
      firstn (length (List.filter (fun v => Nat.eqb (in_count [("A", "B"); ("B", "C")]%string v) 0)
                        ["A"; "B"; "C"]%string)) path =
        List.filter (fun v => Nat.eqb (in_count [("A", "B"); ("B", "C")]%string v) 0)
          ["A"; "B"; "C"]%string) /\
   get_learning_path ["A"; "B"; "C"]%string [("A", "B"); ("B", "C")]%string =
     Ok ["A"; "B"; "C"]%string).
Proof.
  assert (HE : forall u v, In (u, v) [("A", "B"); ("B", "C")]%string ->
             In u ["A"; "B"; "C"]%string /\ In v ["A"; "B"; "C"]%string).
  { intros u v [H | [H | []]]; injection H as <- <-; simpl; tauto. }
  split; [split; [exact NoDup_ABC | split; [exact HE | exact chain_ABC_acyclic]] |].
  apply (get_learning_path_topological_order _ _ NoDup_ABC HE chain_ABC_acyclic).
Defined.

(** *** C2 *)

(** C2 (counterexample): the edges [(A,B),(B,A)] form a cycle, and on the
    nodes [A,B] [get_learning_path] returns the empty order as a normal
    result, shorter than the node count, with no error. *)
Lemma get_learning_path_cycle_counterexample :
  ~ acyclic [("A", "B"); ("B", "A")]%string /\
  get_learning_path ["A"; "B"]%string [("A", "B"); ("B", "A")]%string = Ok [] /\
  (length (@nil string) < length ["A"; "B"]%string)%nat.
Proof.
  split; [| split; [reflexivity | simpl; lia]].
  intros H. apply (H "A"%string). apply t_trans with "B"%string; apply t_step; unfold edge_rel; simpl; auto.
Qed.

(** C2 (amended): on a node list without duplicates, [get_learning_path]
    reports only one condition, an edge whose target is not a declared node,
    and it does so by raising [KeyError]. When every target is declared it
    always returns an order: a duplicate-free list of declared nodes, which
    has all the nodes exactly when the edges are acyclic and every source is
    declared; otherwise it is silently shorter. Two instances: the cycle
    [(A,B),(B,A)] on [A,B] gives [[]], and the unknown source in [(Z,A)] on
    [A] gives [[]]. *)
Theorem get_learning_path_reports_only_unknown_targets (V : list string)
    (E : list (string * string)) (HV : List.NoDup V) :
  ((forall u v, In (u, v) E -> In v V) ->
     exists path, get_learning_path V E = Ok path /\ List.NoDup path /\
       (forall x, In x path -> In x V) /\
       (length path = length V <-> acyclic E /\ forall u v, In (u, v) E -> In u V)) /\
  ((exists u v, In (u, v) E /\ ~ In v V) ->
     exists k, get_learning_path V E = Error (KeyError k) /\ ~ In k V) /\
  get_learning_path ["A"; "B"]%string [("A", "B"); ("B", "A")]%string = Ok [] /\
  get_learning_path ["A"]%string [("Z", "A")]%string = Ok [].
Proof.
  split; [| split; [| split; reflexivity]].
  - intros HEt.
    destruct (get_learning_path_spec V E HV HEt)
      as (path & Hok & Hnd & Hincl & Hord & _ & Hcomp).
    exists path. split; [exact Hok |]. split; [exact Hnd |]. split; [exact Hincl |]. split.
    + intros Hlen.
      assert (Hall : incl V path) by (apply NoDup_length_incl; [exact Hnd | lia | exact Hincl]).
      assert (Hfw : forall u v, In (u, v) E -> precedes path u v)
        by (intros u v H; apply Hord; [exact H | apply Hall; exact (HEt u v H)]).
      split; [exact (acyclic_of_precedes path E Hnd Hfw) |].
      intros u v H. destruct (Hfw u v H) as (i & j & _ & Hi & _).
      apply Hincl. eapply nth_error_In. exact Hi.
    + intros [Hac HEs]. apply Permutation_length. apply Stdlib.Sorting.Permutation.NoDup_Permutation; [exact Hnd | exact HV |].
      intros x. split; [apply Hincl | apply (Hcomp HEs Hac)].
  - intros Hbad. unfold get_learning_path.
    assert (Hk0 : map fst (init_in_degree [] V) = V).
    { rewrite init_in_degree_keys; [reflexivity | exact HV | intros v _ []]. }
    destruct (build_graph_unknown_target E [] (init_in_degree [] V)) as (k & Hb & Hk).
    { rewrite Hk0. exact Hbad. }
    rewrite Hb. exists k. rewrite Hk0 in Hk. split; [reflexivity | exact Hk].
Qed.

Lemma get_learning_path_reports_only_unknown_targets_witness :
  List.NoDup ["A"; "B"]%string /\
  (((forall u v, In (u, v) [("A", "B"); ("B", "A")]%string -> In v ["A"; "B"]%string) ->
     exists path, get_learning_path ["A"; "B"]%string [("A", "B"); ("B", "A")]%string = Ok path /\
       List.NoDup path /\ (forall x, In x path -> In x ["A"; "B"]%string) /\
       (length path = length ["A"; "B"]%string <->
          acyclic [("A", "B"); ("B", "A")]%string /\
          forall u v, In (u, v) [("A", "B"); ("B", "A")]%string -> In u ["A"; "B"]%string)) /\
   ((exists u v, In (u, v) [("A", "B"); ("B", "A")]%string /\ ~ In v ["A"; "B"]%string) ->
     exists k, get_learning_path ["A"; "B"]%string [("A", "B"); ("B", "A")]%string =
       Error (KeyError k) /\ ~ In k ["A"; "B"]%string) /\
   get_learning_path ["A"; "B"]%string [("A", "B"); ("B", "A")]%string = Ok [] /\
   get_learning_path ["A"]%string [("Z", "A")]%string = Ok []).
Proof.
  split; [exact NoDup_AB |].
  exact (get_learning_path_reports_only_unknown_targets _ _ NoDup_AB).
Defined.

End GraphProofs.

(* ===================================================================== *)
(** ** Further properties of [src/core/scoring.py] *)
(* ===================================================================== *)

Module ScoringExtra.
Import Scoring ScoringProofs.

Lemma round_half_even_mono (q1 q2 : Q) :
  q1 <= q2 -> (round_half_even q1 <= round_half_even q2)%Z.
Proof.
  intros H. pose proof (Qfloor_resp_le _ _ H) as Hf.
  pose proof (Qfloor_le q1) as Hl1. pose proof (Qlt_floor q1) as Hu1.
  pose proof (Qfloor_le q2) as Hl2. pose proof (Qlt_floor q2) as Hu2.
  rewrite inject_Z_plus in Hu1, Hu2. change (inject_Z 1) with 1 in Hu1, Hu2.
  unfold round_half_even.
  destruct (Z.eq_dec (Qfloor q1) (Qfloor q2)) as [E | E].
  - rewrite <- E in Hl2, Hu2 |- *. set (f := Qfloor q1) in *. clearbody f.
    repeat (case_q; qbools); try destruct (Z.even f); first [lia | exfalso; lra].
  - assert (Hlt : (Qfloor q1 + 1 <= Qfloor q2)%Z) by lia.
    repeat (case_q; qbools); repeat destruct (Z.even _); lia.
Qed.

Lemma py_round4_mono (x y : Q) : x <= y -> py_round4 x <= py_round4 y.
Proof.
  intros H. assert (H' : x * 10000 <= y * 10000) by lra.
  pose proof (round_half_even_mono _ _ H') as Hr.
  unfold py_round4, Qle; simpl. lia.
Qed.

Lemma clamp01_mono (x y : Q) : x <= y -> clamp01 x <= clamp01 y.
Proof.
  intros H. unfold clamp01, py_min.
  destruct (Qltb x 1) eqn:?, (Qltb y 1) eqn:?; unfold py_max; repeat case_q; qbools; lra.
Qed.

Lemma py_round4_between (a x b : Q) :
  a <= x <= b -> py_round4 a <= py_round4 x <= py_round4 b.
Proof. intros [H1 H2]. split; apply py_round4_mono; assumption. Qed.

(** The order of the three difficulty tiers. *)
Definition difficulty_rank (t : TaskDifficulty) : nat :=
  match t with CONCEPT => 0 | BASIC_CODE => 1 | ADVANCED => 2 end.

(** X1: the time decay of the default engine is [1] up to seven days and
    otherwise between the floor [0.1] and [1], and it never grows with the
    number of days since the last practice. *)
Theorem time_decay_antitone (d1 d2 : Z) :
  (d1 <= d2)%Z ->
  calculate_time_decay engine (Some d2) <= calculate_time_decay engine (Some d1) /\
  1 # 10 <= calculate_time_decay engine (Some d2) <= 1 /\
  ((d2 <= 7)%Z -> calculate_time_decay engine (Some d2) = 1).
Proof.
  intros H. split; [| split; [apply time_decay_bounds |]].
  - simpl. destruct (Z.leb d2 7) eqn:E2, (Z.leb d1 7) eqn:E1;
      apply Z.leb_le in E2 || apply Z.leb_gt in E2;
      apply Z.leb_le in E1 || apply Z.leb_gt in E1; try lia.
    + lra.
    + assert (Hi : 1 <= inject_Z (d2 - 7))
        by (change 1 with (inject_Z 1); rewrite <- Zle_Qle; lia).
      unfold py_max. case_q; qbools; lra.
    + assert (Hi : inject_Z (d1 - 7) <= inject_Z (d2 - 7)) by (rewrite <- Zle_Qle; lia).
      unfold py_max. repeat case_q; qbools; lra.
  - intros Hd. simpl. replace (Z.leb d2 7) with true by (symmetry; apply Z.leb_le; lia).
    reflexivity.
Qed.

Lemma time_decay_antitone_witness :
  (3 <= 40)%Z /\
  (calculate_time_decay engine (Some 40%Z) <= calculate_time_decay engine (Some 3%Z) /\
   1 # 10 <= calculate_time_decay engine (Some 40%Z) <= 1 /\
   ((40 <= 7)%Z -> calculate_time_decay engine (Some 40%Z) = 1)).
Proof. split; [lia | apply (time_decay_antitone 3 40); lia]. Defined.

(** X2: the adaptive learning rate of the default engine never grows with
    the mastery it is given, and it is the rate of the teaching stage that
    [KnowledgePoint.get_teaching_stage] reports for a point at that
    mastery: [0.40, 0.35, 0.25, 0.15] for stages [0, 1, 2, 3]. *)
Theorem adaptive_rate_antitone_and_stage (m1 m2 : Q) (kp : Ledger.KnowledgePoint) :
  (m1 <= m2 -> get_adaptive_learning_rate engine m2 <= get_adaptive_learning_rate engine m1) /\
  (Ledger.actual_mastery kp = m2 ->
   Some (get_adaptive_learning_rate engine m2) =
   nth_error [40 # 100; 35 # 100; 25 # 100; 15 # 100] (Ledger.get_teaching_stage kp)).
Proof.
  split.
  - intros H. unfold get_adaptive_learning_rate. simpl.
    repeat case_q; qbools; simpl; first [lra | exfalso; lra].
  - intros <-. unfold get_adaptive_learning_rate, Ledger.get_teaching_stage. simpl.
    repeat case_q; reflexivity.
Qed.

(** X3: [apply_forgetting] on a non-negative mastery never raises it
    beyond its four-decimal rounding and never lowers it below the rounding
    of a tenth of it (the forgetting floor); up to seven days, or with no
    practice time, it only rounds. *)
Theorem apply_forgetting_bounds (c : Q) (days : option Z) :
  0 <= c ->
  py_round4 (c * (1 # 10)) <= apply_forgetting engine c days <= py_round4 c /\
  (match days with None => True | Some ds => (ds <= 7)%Z end ->
   apply_forgetting engine c days = py_round4 c).
Proof.
  intros Hc. unfold apply_forgetting. split.
  - pose proof (time_decay_bounds days) as [H1 H2].
    split; apply py_round4_mono; nra.
  - intros Hd. assert (E : calculate_time_decay engine days = 1).
    { destruct days as [ds |]; [| reflexivity]. simpl.
      replace (Z.leb ds 7) with true by (symmetry; apply Z.leb_le; exact Hd). reflexivity. }
    rewrite E. apply py_round4_comp. ring.
Qed.

Lemma apply_forgetting_bounds_witness :
  0 <= 1 # 2 /\
  (py_round4 ((1 # 2) * (1 # 10)) <= apply_forgetting engine (1 # 2) (Some 30%Z) <= py_round4 (1 # 2) /\
   ((30 <= 7)%Z -> apply_forgetting engine (1 # 2) (Some 30%Z) = py_round4 (1 # 2))).
Proof.
  split; [unfold Qle; simpl; lia |].
  apply (apply_forgetting_bounds (1 # 2) (Some 30%Z)). unfold Qle; simpl; lia.
Defined.

(** X4: one enhanced update of the default engine never overshoots: the
    new mastery lies between the (rounded) decayed old mastery and the
    (rounded) target [score * cap], on the side of the target. *)
Theorem enhanced_update_between (A0 S : Q) (d : DifficultyArg) (days : option Z) :
  let ad := clamp01 A0 * calculate_time_decay engine days in
  let target := clamp01 S * get_difficulty_cap engine d in
  let nm := new_mastery (calculate_new_mastery engine A0 S d days true) in
  (ad <= target -> py_round4 ad <= nm <= py_round4 target) /\
  (target <= ad -> py_round4 target <= nm <= py_round4 ad).
Proof.
  cbv zeta. unfold calculate_new_mastery. cbn [new_mastery].
  pose proof (clamp01_bounds A0) as Ha. pose proof (clamp01_bounds S) as Hs.
  pose proof (time_decay_bounds days) as Ht. pose proof (cap_cases d) as Hc.
  pose proof (alpha_cases (clamp01 A0 * calculate_time_decay engine days)) as Hal.
  pose proof (gamma_cases (clamp01 A0) (clamp01 S)) as Hg.
  cbv zeta in Hal, Hg, Hc. rewrite enhanced_raw_eq.
  set (a := clamp01 A0) in *. set (s := clamp01 S) in *.
  set (td := calculate_time_decay engine days) in *.
  assert (Had : 0 <= a * td <= 1) by (split; nra).
  set (ad := a * td) in *. clearbody ad.
  set (al := get_adaptive_learning_rate engine ad) in *.
  set (g := calculate_tolerance_factor engine a s) in *.
  set (c := get_difficulty_cap engine d) in *.
  assert (Hc' : 0 <= c <= 1) by (destruct Hc as [E | [E | E]]; rewrite E; lra).
  assert (Htg : 0 <= s * c <= 1) by (split; nra).
  assert (Hk : 0 < al * g <= 1).
  { clearbody al g. destruct Hal as [-> | [-> | [-> | ->]]]; destruct Hg as [-> | [-> | ->]];
      split; lra. }
  clearbody al g c.
  set (t := s * c) in *. clearbody t.
  assert (Hraw : ad + al * ((t - ad) * g) == ad + (al * g) * (t - ad)) by ring.
  set (k := al * g) in *. clearbody k.
  split; intros Hle.
  - assert (Hb : ad <= ad + al * ((t - ad) * g) <= t) by (rewrite Hraw; split; nra).
    rewrite (py_round4_comp _ _ (clamp01_id _ (conj (Qle_trans _ _ _ (proj1 Had) (proj1 Hb))
                                               (Qle_trans _ _ _ (proj2 Hb) (proj2 Htg))))).
    apply py_round4_between. exact Hb.
  - assert (Hb : t <= ad + al * ((t - ad) * g) <= ad) by (rewrite Hraw; split; nra).
    rewrite (py_round4_comp _ _ (clamp01_id _ (conj (Qle_trans _ _ _ (proj1 Htg) (proj1 Hb))
                                               (Qle_trans _ _ _ (proj2 Hb) (proj2 Had))))).
    apply py_round4_between. exact Hb.
Qed.

Lemma cap_cases_new (lr : option Q) (d : DifficultyArg) :
  let c := get_difficulty_cap (new_ScoringEngine lr) d in
  c = 4 # 10 \/ c = 7 # 10 \/ c = 1.
Proof. destruct d as [[] |]; simpl; tauto. Qed.

Lemma legacy_mastery_eq (lr : option Q) (A0 S : Q) (d : DifficultyArg) (days : option Z) :
  new_mastery (calculate_new_mastery (new_ScoringEngine lr) A0 S d days false) =
  py_round4 (clamp01 (legacy_raw (new_ScoringEngine lr) (clamp01 A0) (clamp01 S)
    (get_difficulty_cap (new_ScoringEngine lr) d))).
Proof. reflexivity. Qed.

(** X5: with a base learning rate in [[0, 1]] (the default [0.3], or any
    other rate passed to [ScoringEngine]), the legacy update
    ([use_enhanced=False]) lies between the rounded old mastery and the
    rounded target [score * cap], and it is monotone: a higher old mastery or
    a higher score never gives a lower new mastery. The elapsed time plays no
    part. *)
Theorem legacy_update_between_and_monotone (lr : option Q) (A1 A2 S1 S2 : Q)
    (d : DifficultyArg) (days1 days2 : option Z) :
  0 <= base_learning_rate (new_ScoringEngine lr) <= 1 ->
  let e := new_ScoringEngine lr in
  let a := clamp01 A1 in
  let target := clamp01 S1 * get_difficulty_cap e d in
  let nm := new_mastery (calculate_new_mastery e A1 S1 d days1 false) in
  ((a <= target -> py_round4 a <= nm <= py_round4 target) /\
   (target <= a -> py_round4 target <= nm <= py_round4 a)) /\
  (A1 <= A2 -> S1 <= S2 ->
   nm <= new_mastery (calculate_new_mastery e A2 S2 d days2 false)).
Proof.
  intros Hr. cbv zeta. rewrite !legacy_mastery_eq. unfold legacy_raw.
  pose proof (cap_cases_new lr d) as Hc. cbv zeta in Hc.
  set (r := base_learning_rate (new_ScoringEngine lr)) in *.
  set (c := get_difficulty_cap (new_ScoringEngine lr) d) in *.
  assert (Hc' : 0 <= c <= 1) by (destruct Hc as [E | [E | E]]; rewrite E; lra).
  clearbody r c.
  pose proof (clamp01_bounds A1) as Ha. pose proof (clamp01_bounds S1) as Hs.
  split.
  - set (a := clamp01 A1) in *. set (s := clamp01 S1) in *. clearbody a s.
    assert (Ht : 0 <= s * c <= 1) by (split; nra).
    split; intros Hle.
    + assert (Hb : a <= a + r * (s * c - a) <= s * c) by (split; nra).
      rewrite (py_round4_comp _ _ (clamp01_id _ (conj (Qle_trans _ _ _ (proj1 Ha) (proj1 Hb))
                                                 (Qle_trans _ _ _ (proj2 Hb) (proj2 Ht))))).
      apply py_round4_between. exact Hb.
    + assert (Hb : s * c <= a + r * (s * c - a) <= a) by (split; nra).
      rewrite (py_round4_comp _ _ (clamp01_id _ (conj (Qle_trans _ _ _ (proj1 Ht) (proj1 Hb))
                                                 (Qle_trans _ _ _ (proj2 Hb) (proj2 Ha))))).
      apply py_round4_between. exact Hb.
  - intros HA HS. apply py_round4_mono, clamp01_mono.
    pose proof (clamp01_mono _ _ HA) as HA'. pose proof (clamp01_mono _ _ HS) as HS'.
    pose proof (clamp01_bounds A2) as Ha2. pose proof (clamp01_bounds S2) as Hs2.
    set (a1 := clamp01 A1) in *. set (a2 := clamp01 A2) in *.
    set (s1 := clamp01 S1) in *. set (s2 := clamp01 S2) in *.
    clearbody a1 a2 s1 s2.
    assert (E1 : a1 + r * (s1 * c - a1) == (1 - r) * a1 + r * c * s1) by ring.
    assert (E2 : a2 + r * (s2 * c - a2) == (1 - r) * a2 + r * c * s2) by ring.
    rewrite E1, E2.
    assert (Hrc : 0 <= r * c) by nra.
    assert ((1 - r) * a1 <= (1 - r) * a2) by nra.
    assert (r * c * s1 <= r * c * s2) by nra.
    lra.
Qed.

Lemma legacy_update_between_and_monotone_witness :
  0 <= base_learning_rate (new_ScoringEngine None) <= 1 /\
  (let e := new_ScoringEngine None in
   let a := clamp01 (1 # 2) in
   let target := clamp01 (9 # 10) * get_difficulty_cap e (Tier BASIC_CODE) in
   let nm := new_mastery (calculate_new_mastery e (1 # 2) (9 # 10) (Tier BASIC_CODE) None false) in
   ((a <= target -> py_round4 a <= nm <= py_round4 target) /\
    (target <= a -> py_round4 target <= nm <= py_round4 a)) /\
   ((1 # 2) <= (6 # 10) -> (9 # 10) <= 1 ->
    nm <= new_mastery (calculate_new_mastery e (6 # 10) 1 (Tier BASIC_CODE) (Some 3%Z) false))).
Proof.
  assert (H : 0 <= base_learning_rate (new_ScoringEngine None) <= 1)
    by (simpl; split; unfold Qle; simpl; lia).
  split; [exact H |].
  exact (legacy_update_between_and_monotone None (1 # 2) (6 # 10) (9 # 10) 1
           (Tier BASIC_CODE) None (Some 3%Z) H).
Defined.

(** X6: unlike the legacy update, the enhanced update of the default engine
    is not monotone: a higher score can give a lower new mastery (at old
    mastery [0.3], score [0.9] triggers the guess dampening and gives less
    than score [0.8]), and so can a higher old mastery (moving from [0.19]
    to [0.2] lowers the learning-rate stage from [0.40] to [0.35]). *)
Theorem enhanced_update_not_monotone :
  (exists A0 S1 S2, S1 < S2 /\
     new_mastery (calculate_new_mastery engine A0 S2 (Tier ADVANCED) None true) <
     new_mastery (calculate_new_mastery engine A0 S1 (Tier ADVANCED) None true)) /\
  (exists A1 A2 S, A1 < A2 /\
     new_mastery (calculate_new_mastery engine A2 S (Tier ADVANCED) None true) <
     new_mastery (calculate_new_mastery engine A1 S (Tier ADVANCED) None true)).
Proof.
  split.
  - exists (3 # 10), (8 # 10), (9 # 10). split; [unfold Qlt; simpl; lia |].
    vm_compute. reflexivity.
  - exists (19 # 100), (2 # 10), 1. split; [unfold Qlt; simpl; lia |].
    vm_compute. reflexivity.
Qed.

Lemma prefix_app (k s t : string) :
  String.prefix k s = true -> String.prefix k (String.append s t) = true.
Proof.
  revert s. induction k as [| c k IH]; intros s H; [destruct (String.append s t); reflexivity |].
  destruct s as [| c' s]; [discriminate |]. simpl in *.
  destruct (Ascii.ascii_dec c c'); [apply IH; exact H | discriminate].
Qed.

Lemma str_contains_app (k s t : string) :
  str_contains k s = true -> str_contains k (String.append s t) = true.
Proof.
  induction s as [| c s IH]; intros H.
  - simpl in H. apply String.eqb_eq in H. subst k. destruct t; reflexivity.
  - simpl in *. apply orb_true_iff in H as [H | H].
    + apply orb_true_iff. left. exact (prefix_app k (String c s) t H).
    + apply orb_true_iff. right. exact (IH H).
Qed.

Lemma existsb_contains_app (l : list string) (s t : string) :
  existsb (fun k => str_contains k s) l = true ->
  existsb (fun k => str_contains k (String.append s t)) l = true.
Proof.
  intros H. apply existsb_exists in H as (k & Hk & Hc).
  apply existsb_exists. exists k. split; [exact Hk | apply str_contains_app; exact Hc].
Qed.

(** X7: [determine_difficulty] only looks for keywords, so adding text to a
    question never lowers its difficulty (CONCEPT below BASIC_CODE below
    ADVANCED), for any lowering that maps a concatenation to the
    concatenation of the lowered parts (as [str.lower] does on ASCII). *)
Theorem determine_difficulty_append_monotone (lower : string -> string) (q u : string) :
  lower (String.append q u) = String.append (lower q) (lower u) ->
  (difficulty_rank (determine_difficulty lower q) <=
   difficulty_rank (determine_difficulty lower (String.append q u)))%nat.
Proof.
  intros H. unfold determine_difficulty. rewrite H.
  destruct (existsb (fun k => str_contains k (lower q)) advanced_keywords) eqn:Ea.
  - rewrite (existsb_contains_app _ _ _ Ea). simpl. lia.
  - destruct (existsb (fun k => str_contains k (lower q)) basic_keywords) eqn:Eb.
    + rewrite (existsb_contains_app _ _ _ Eb).
      match goal with |- context [if ?b then _ else _] => destruct b end; simpl; lia.
    + simpl. lia.
Qed.

Lemma determine_difficulty_append_monotone_witness :
  ascii_lower (String.append "Explain lists" " and WRITE a function") =
    String.append (ascii_lower "Explain lists") (ascii_lower " and WRITE a function") /\
  (difficulty_rank (determine_difficulty ascii_lower "Explain lists") <=
   difficulty_rank (determine_difficulty ascii_lower
     (String.append "Explain lists" " and WRITE a function")))%nat.
Proof.
  split; [reflexivity |].
  apply determine_difficulty_append_monotone. reflexivity.
Defined.

(** X8: the keyword ["complete"], listed among both the advanced and the
    basic keywords, always makes a question ADVANCED; a BASIC_CODE result is
    always due to another basic keyword. *)
Theorem determine_difficulty_complete (lower : string -> string) (q : string) :
  (str_contains "complete" (lower q) = true -> determine_difficulty lower q = ADVANCED) /\
  (determine_difficulty lower q = BASIC_CODE ->
   exists k, In k basic_keywords /\ k <> "complete"%string /\ str_contains k (lower q) = true).
Proof.
  unfold determine_difficulty. split.
  - intros H. replace (existsb _ advanced_keywords) with true; [reflexivity |].
    symmetry. apply existsb_exists. exists "complete"%string.
    split; [simpl; tauto | exact H].
  - destruct (existsb (fun k => str_contains k (lower q)) advanced_keywords) eqn:Ea;
      [discriminate |].
    destruct (existsb (fun k => str_contains k (lower q)) basic_keywords) eqn:Eb;
      [intros _ | discriminate].
    apply existsb_exists in Eb as (k & Hk & Hc). exists k.
    split; [exact Hk |]. split; [| exact Hc].
    intros ->. assert (existsb (fun k => str_contains k (lower q)) advanced_keywords = true).
    { apply existsb_exists. exists "complete"%string. split; [simpl; tauto | exact Hc]. }
    congruence.
Qed.

End ScoringExtra.

(* ===================================================================== *)
(** ** Further properties of [src/core/learner_state.py] *)
(* ===================================================================== *)

Module LedgerExtra.
Import Ledger.

(** The history of a point read as a chain: each entry starts from the
    mastery the previous one ended at, and the last one ends at the current
    mastery. *)
Fixpoint history_chain (a : Q) (h : list HistoryEntry) (actual : Q) : Prop :=
  match h with
  | [] => a = actual
  | e :: t => h_old_mastery e = a /\ history_chain (h_new_mastery e) t actual
  end.

(** Every stored point is filed under its own name and has a chained
    history. *)
Definition ledger_wf (st : LearnerState) : Prop :=
  forall nm kp, get_knowledge_point st nm = Some kp ->
    name kp = nm /\ exists a0, history_chain a0 (history kp) (actual_mastery kp).

(** The number of [UpdateKP nm] calls in a sequence. *)
Fixpoint updates_of (nm : string) (ops : list LedgerOp) : nat :=
  match ops with
  | [] => 0
  | UpdateKP n _ _ _ _ :: rest => (if String.eqb n nm then 1 else 0) + updates_of nm rest
  | AddKP _ _ _ _ _ :: rest => updates_of nm rest
  end.

(** The calls after the first [AddKP nm], if there is one. *)
Fixpoint after_first_add (nm : string) (ops : list LedgerOp) : option (list LedgerOp) :=
  match ops with
  | [] => None
  | AddKP n _ _ _ _ :: rest => if String.eqb n nm then Some rest else after_first_add nm rest
  | UpdateKP _ _ _ _ _ :: rest => after_first_add nm rest
  end.

Lemma run_op_other (st : LearnerState) (op : LedgerOp) (m : string) :
  op_name op <> m -> get_knowledge_point (run_op st op) m = get_knowledge_point st m.
Proof.
  intros Hne. unfold get_knowledge_point.
  destruct op as [nm t nt i now | nm v s f now]; simpl in *.
  - unfold add_knowledge_point. destruct (knowledge_points st !! nm); simpl;
      apply lookup_insert_ne; exact Hne.
  - unfold update_mastery. destruct (knowledge_points st !! nm); simpl; [| reflexivity].
    apply lookup_insert_ne; exact Hne.
Qed.

Lemma run_op_add (st : LearnerState) (nm : string) t nt i now :
  get_knowledge_point (run_op st (AddKP nm t nt i now)) nm =
  Some (fst (add_knowledge_point st nm t nt i now)).
Proof.
  unfold get_knowledge_point. simpl. unfold add_knowledge_point.
  destruct (knowledge_points st !! nm); simpl; apply lookup_insert_eq.
Qed.

Lemma run_op_update (st : LearnerState) (nm : string) v s f now :
  get_knowledge_point (run_op st (UpdateKP nm v s f now)) nm =
  option_map (fun kp => kp_update_mastery kp v s f now) (get_knowledge_point st nm).
Proof.
  unfold get_knowledge_point. simpl. unfold update_mastery.
  destruct (knowledge_points st !! nm) eqn:E; simpl; [apply lookup_insert_eq | exact E].
Qed.

Lemma history_chain_app (a : Q) (h : list HistoryEntry) (actual v s : Q) (f now : string) :
  history_chain a h actual ->
  history_chain a (h ++ [{| h_timestamp := now; h_old_mastery := actual;
                            h_new_mastery := v; h_score := s; h_feedback := f |}]) v.
Proof.
  revert a. induction h as [| e h IH]; intros a H; simpl in *.
  - subst. split; reflexivity.
  - destruct H as [H1 H2]. split; [exact H1 | apply IH; exact H2].
Qed.

(** X9: a call on the ledger only touches the point it names: a sequence of
    [add_knowledge_point] and [update_mastery] calls none of which names
    [m] leaves [get_knowledge_point m] as it was. *)
Theorem ledger_ops_frame (st : LearnerState) (ops : list LedgerOp) (m : string) :
  (forall op, In op ops -> op_name op <> m) ->
  get_knowledge_point (run_ops st ops) m = get_knowledge_point st m.
Proof.
  revert st. induction ops as [| op ops IH]; intros st H; [reflexivity |].
  simpl. rewrite IH by (intros op' Hop'; apply H; right; exact Hop').
  apply run_op_other. apply H. left. reflexivity.
Qed.

Lemma ledger_ops_frame_witness :
  (forall op, In op [AddKP "a" (8 # 10) "" 0 "t0"; UpdateKP "a" (1 # 2) (1 # 2) "ok" "t1"] ->
     op_name op <> "b"%string) /\
  get_knowledge_point (run_ops empty_state
      [AddKP "a" (8 # 10) "" 0 "t0"; UpdateKP "a" (1 # 2) (1 # 2) "ok" "t1"]) "b" =
    get_knowledge_point empty_state "b".
Proof.
  assert (H : forall op, In op [AddKP "a" (8 # 10) "" 0 "t0"; UpdateKP "a" (1 # 2) (1 # 2) "ok" "t1"] ->
     op_name op <> "b"%string).
  { intros op [<- | [<- | []]]; simpl; discriminate. }
  split; [exact H | apply ledger_ops_frame; exact H].
Defined.




(** X12: starting from an empty ledger, any sequence of
    [add_knowledge_point] and [update_mastery] calls keeps every point filed
    under its own name, with a history in which each entry starts from the
    mastery the previous one ended at and the last one ends at the current
    mastery. *)
Theorem ledger_history_chained (ops : list LedgerOp) : ledger_wf (run_ops empty_state ops).
Proof.
  assert (Hstep : forall st op, ledger_wf st -> ledger_wf (run_op st op)).
  { intros st op Hwf nm kp Hkp.
    destruct (String.eqb_spec (op_name op) nm) as [Heq | Hne].
    - destruct op as [n t nt i now | n v s f now]; simpl in Heq; subst n.
      + rewrite run_op_add in Hkp. injection Hkp as <-.
        unfold add_knowledge_point, get_knowledge_point in *.
        destruct (knowledge_points st !! nm) as [kp0 |] eqn:E; simpl.
        * destruct (Hwf nm kp0 E) as [Hn Hc]. split; [exact Hn | exact Hc].
        * split; [reflexivity | exists i; reflexivity].
      + rewrite run_op_update in Hkp.
        destruct (get_knowledge_point st nm) as [kp0 |] eqn:E; [| discriminate].
        injection Hkp as <-. destruct (Hwf nm kp0 E) as [Hn [a0 Hc]].
        split; [exact Hn |]. exists a0. simpl. apply history_chain_app. exact Hc.
    - rewrite run_op_other in Hkp by exact Hne. exact (Hwf nm kp Hkp). }
  assert (Hrun : forall ops st, ledger_wf st -> ledger_wf (run_ops st ops)).
  { induction ops0 as [| op ops0 IH]; intros st H; [exact H |]. simpl. apply IH, Hstep, H. }
  apply Hrun. intros nm kp H. unfold get_knowledge_point in H. simpl in H.
  rewrite lookup_empty in H. discriminate.
Qed.

(** X13: starting from an empty ledger, a name has a point exactly when the
    calls include an [add_knowledge_point] for it, and then the length of
    its history is the number of [update_mastery] calls for that name after
    the first such [add_knowledge_point]: re-adding a name keeps its
    history, and updates before it is added are ignored. *)
Theorem ledger_history_length (ops : list LedgerOp) (nm : string) :
  match after_first_add nm ops with
  | None => get_knowledge_point (run_ops empty_state ops) nm = None
  | Some rest => exists kp, get_knowledge_point (run_ops empty_state ops) nm = Some kp /\
                  length (history kp) = updates_of nm rest
  end.
Proof.
  assert (Hpresent : forall ops st kp0, get_knowledge_point st nm = Some kp0 ->
            exists kp, get_knowledge_point (run_ops st ops) nm = Some kp /\
              length (history kp) = (length (history kp0) + updates_of nm ops)%nat).
  { induction ops0 as [| op ops0 IH]; intros st kp0 H.
    - exists kp0. split; [exact H | simpl; lia].
    - simpl. destruct (String.eqb_spec (op_name op) nm) as [Heq | Hne].
      + destruct op as [n t nt i now | n v s f now]; simpl in Heq; subst n.
        * destruct (IH (run_op st (AddKP nm t nt i now)) (fst (add_knowledge_point st nm t nt i now)))
            as (kp & Hk & Hl); [apply run_op_add |].
          exists kp. split; [exact Hk |]. rewrite Hl. simpl.
          unfold add_knowledge_point, get_knowledge_point in *. rewrite H. reflexivity.
        * destruct (IH (run_op st (UpdateKP nm v s f now)) (kp_update_mastery kp0 v s f now))
            as (kp & Hk & Hl); [rewrite run_op_update, H; reflexivity |].
          exists kp. split; [exact Hk |]. rewrite Hl. simpl. rewrite String.eqb_refl.
          rewrite length_app. simpl. lia.
      + destruct (IH (run_op st op) kp0) as (kp & Hk & Hl); [rewrite run_op_other; assumption |].
        exists kp. split; [exact Hk |]. rewrite Hl.
        destruct op as [n t nt i now | n v s f now]; simpl; [reflexivity |].
        simpl in Hne. destruct (String.eqb_spec n nm); [congruence | reflexivity]. }
  assert (Habsent : forall ops st, get_knowledge_point st nm = None ->
            match after_first_add nm ops with
            | None => get_knowledge_point (run_ops st ops) nm = None
            | Some rest => exists kp, get_knowledge_point (run_ops st ops) nm = Some kp /\
                            length (history kp) = updates_of nm rest
            end).
  { induction ops0 as [| op ops0 IH]; intros st H; [exact H |].
    destruct op as [n t nt i now | n v s f now]; cbn [after_first_add run_ops].
    - destruct (String.eqb_spec n nm) as [-> | Hne].
      + destruct (Hpresent ops0 (run_op st (AddKP nm t nt i now))
                    (fst (add_knowledge_point st nm t nt i now))) as (kp & Hk & Hl);
          [apply run_op_add |].
        exists kp. split; [exact Hk |]. rewrite Hl.
        unfold add_knowledge_point, get_knowledge_point in *. rewrite H. reflexivity.
      + apply IH. rewrite run_op_other by (simpl; exact Hne). exact H.
    - apply IH. destruct (String.eqb_spec n nm) as [-> | Hne].
      + rewrite run_op_update, H. reflexivity.
      + rewrite run_op_other by (simpl; exact Hne). exact H. }
  apply Habsent. unfold get_knowledge_point. simpl. apply lookup_empty.
Qed.

Lemma py_round3_bounds (x : Q) :
  0 <= x -> x <= 1 -> 0 <= py_round3 x <= 1.
Proof.
  intros H0 H1.
  assert (Ha : 0 <= x * 1000) by lra.
  assert (Hb : x * 1000 <= inject_Z 1000) by (change (inject_Z 1000) with 1000; lra).
  destruct (ScoringProofs.round_half_even_bounds _ _ Ha Hb) as [A B].
  unfold py_round3. split; unfold Qle; simpl; lia.
Qed.

Lemma fold_sum_bounds (l : list KnowledgePoint) (acc : Q) :
  (forall kp, In kp l -> 0 <= actual_mastery kp <= 1) ->
  acc <= fold_left (fun acc kp => acc + actual_mastery kp) l acc <= acc + inject_Z (Z.of_nat (length l)).
Proof.
  revert acc. induction l as [| kp l IH]; intros acc H; cbn [fold_left length].
  - change (inject_Z (Z.of_nat 0)) with 0. lra.
  - assert (Hk : 0 <= actual_mastery kp <= 1) by (apply H; left; reflexivity).
    destruct (IH (acc + actual_mastery kp)) as [A B]; [intros k Hk'; apply H; right; exact Hk' |].
    rewrite Nat2Z.inj_succ, <- Z.add_1_r, inject_Z_plus. change (inject_Z 1) with 1.
    lra.
Qed.

(** X14: [get_progress_summary] reports zeros for an empty ledger;
    otherwise [total] is the number of points, [mastered] is at most
    [total], and, when every stored mastery is in [[0, 1]], the rounded
    average mastery is in [[0, 1]] as well. *)
Theorem progress_summary_bounds (st : LearnerState) :
  (size (knowledge_points st) = 0%nat ->
   get_progress_summary st = {| total := 0; mastered := 0; average_mastery := 0 |}) /\
  total (get_progress_summary st) = size (knowledge_points st) /\
  (mastered (get_progress_summary st) <= total (get_progress_summary st))%nat /\
  ((forall nm kp, get_knowledge_point st nm = Some kp -> 0 <= actual_mastery kp <= 1) ->
   0 <= average_mastery (get_progress_summary st) <= 1).
Proof.
  assert (Hlen : length (list_knowledge_points st) = size (knowledge_points st)).
  { unfold list_knowledge_points. rewrite length_map. apply length_map_to_list. }
  unfold get_progress_summary.
  destruct (Nat.eqb_spec (size (knowledge_points st)) 0) as [E | E].
  - split; [reflexivity |]. split; [simpl; lia |]. split; [simpl; lia |].
    intros _. simpl. lra.
  - split; [intros; contradiction |]. split; [reflexivity |]. split.
    + simpl. rewrite <- Hlen. apply List.filter_length_le || apply length_filter_le.
    + intros Hin. simpl. apply py_round3_bounds.
      * destruct (fold_sum_bounds (list_knowledge_points st) 0) as [A B].
        { intros kp Hk. unfold list_knowledge_points in Hk.
          apply in_map_iff in Hk as ([nm kp'] & <- & Hk). apply list_elem_of_In in Hk.
          apply elem_of_map_to_list in Hk. exact (Hin nm kp' Hk). }
        assert (Hn : 0 < inject_Z (Z.of_nat (size (knowledge_points st))))
          by (change 0 with (inject_Z 0); rewrite <- Zlt_Qlt; lia).
        apply Qle_shift_div_l; [exact Hn | lra].
      * destruct (fold_sum_bounds (list_knowledge_points st) 0) as [A B].
        { intros kp Hk. unfold list_knowledge_points in Hk.
          apply in_map_iff in Hk as ([nm kp'] & <- & Hk). apply list_elem_of_In in Hk.
          apply elem_of_map_to_list in Hk. exact (Hin nm kp' Hk). }
        assert (Hn : 0 < inject_Z (Z.of_nat (size (knowledge_points st))))
          by (change 0 with (inject_Z 0); rewrite <- Zlt_Qlt; lia).
        apply Qle_shift_div_r; [exact Hn |]. rewrite Hlen in B. lra.
Qed.

End LedgerExtra.

(* ===================================================================== *)
(** ** Further properties of [src/agents/knowledge_graph_agent.py] *)
(* ===================================================================== *)

Module GraphExtra.
Import Graph GraphProofs.

(** The ids [node["id"]] of the nodes that have one, in order. *)
Definition id_vals (nodes : list (dict jval)) : list jval :=
  flat_map (fun n => match dict_get "id" n with Some v => [v] | None => [] end) nodes.

Lemma validate_nodes_some (nodes : list (dict jval)) :
  forall acc ids, validate_nodes nodes acc = Some ids ->
  ids = acc ++ id_vals nodes /\
  forall n, In n nodes -> forall f, In f required_fields -> has_key f n = true.
Proof.
  induction nodes as [| n rest IH]; intros acc ids H; cbn [validate_nodes] in H.
  - injection H as <-. split; [rewrite app_nil_r; reflexivity | intros _ []].
  - destruct (forallb _ required_fields) eqn:Ef; [| discriminate].
    destruct (dict_get "id" n) as [id |] eqn:Ei; [| discriminate].
    destruct (IH _ _ H) as [Hids Hf]. split.
    + rewrite Hids. unfold id_vals. simpl. rewrite Ei, <- app_assoc. reflexivity.
    + intros n' [<- | Hn'] f Hf'; [| exact (Hf n' Hn' f Hf')].
      rewrite forallb_forall in Ef. exact (Ef f Hf').
Qed.

Lemma validate_nodes_all (nodes : list (dict jval)) :
  forall acc, (forall n, In n nodes -> forall f, In f required_fields -> has_key f n = true) ->
  validate_nodes nodes acc = Some (acc ++ id_vals nodes).
Proof.
  induction nodes as [| n rest IH]; intros acc H; cbn [validate_nodes].
  - rewrite app_nil_r. reflexivity.
  - replace (forallb _ required_fields) with true
      by (symmetry; apply forallb_forall; apply H; left; reflexivity).
    assert (Hid : has_key "id" n = true) by (apply H; [left; reflexivity | simpl; tauto]).
    unfold has_key in Hid. destruct (dict_get "id" n) as [id |] eqn:Ei; [| discriminate].
    rewrite IH by (intros n' Hn'; apply H; right; exact Hn').
    unfold id_vals. simpl. rewrite Ei, <- app_assoc. reflexivity.
Qed.

Lemma validate_edges_spec (edges : list (dict jval)) (ids : list jval) :
  validate_edges edges ids = true <->
  forall e, In e edges -> exists s t, dict_get "source" e = Some s /\ dict_get "target" e = Some t /\
    jmem s ids = true /\ jmem t ids = true.
Proof.
  induction edges as [| e rest IH]; simpl.
  - split; [intros _ _ [] | reflexivity].
  - destruct (dict_get "source" e) as [s |] eqn:Es, (dict_get "target" e) as [t |] eqn:Et.
    + destruct (jmem s ids) eqn:Ms, (jmem t ids) eqn:Mt; simpl.
      * rewrite IH. split.
        -- intros H e' [<- | He']; [exists s, t; auto | exact (H e' He')].
        -- intros H e' He'. apply H. right. exact He'.
      * split; [discriminate |]. intros H. destruct (H e (or_introl eq_refl)) as (s' & t' & A & B & _ & D).
        congruence.
      * split; [discriminate |]. intros H. destruct (H e (or_introl eq_refl)) as (s' & t' & A & B & C & _).
        congruence.
      * split; [discriminate |]. intros H. destruct (H e (or_introl eq_refl)) as (s' & t' & A & B & C & _).
        congruence.
    + split; [discriminate |]. intros H. destruct (H e (or_introl eq_refl)) as (s' & t' & A & B & _). congruence.
    + split; [discriminate |]. intros H. destruct (H e (or_introl eq_refl)) as (s' & t' & A & B & _). congruence.
    + split; [discriminate |]. intros H. destruct (H e (or_introl eq_refl)) as (s' & t' & A & B & _). congruence.
Qed.

Lemma validate_graph_accepts (data : GraphData) :
  validate_graph data = true <->
  exists nodes edges, gd_nodes data = Some nodes /\ gd_edges data = Some edges /\
    (forall n, In n nodes -> forall f, In f required_fields -> has_key f n = true) /\
    (forall e, In e edges -> exists s t, dict_get "source" e = Some s /\
       dict_get "target" e = Some t /\ jmem s (id_vals nodes) = true /\
       jmem t (id_vals nodes) = true).
Proof.
  unfold validate_graph. split.
  - destruct (gd_nodes data) as [nodes |], (gd_edges data) as [edges |]; try discriminate.
    destruct (validate_nodes nodes []) as [ids |] eqn:Ev; [| discriminate].
    destruct (validate_nodes_some nodes [] ids Ev) as [Hids Hf]. simpl in Hids. subst ids.
    intros H. exists nodes, edges. split; [reflexivity |]. split; [reflexivity |].
    split; [exact Hf |]. apply validate_edges_spec. exact H.
  - intros (nodes & edges & -> & -> & Hf & He).
    rewrite (validate_nodes_all nodes [] Hf). apply validate_edges_spec. exact He.
Qed.


Lemma jmem_JStr (u : string) (V : list string) :
  jmem (JStr u) (map JStr V) = true -> In u V.
Proof.
  induction V as [| v V IH]; simpl; [discriminate |].
  intros H. apply orb_true_iff in H as [H | H].
  - left. symmetry. apply String.eqb_eq. exact H.
  - right. apply IH. exact H.
Qed.

Lemma dict_keys_nodup_set {V} (k : string) (v : V) (d : dict V) :
  List.NoDup (map fst d) -> List.NoDup (map fst (dict_set k v d)).
Proof.
  intros H. destruct (in_dec String.string_dec k (map fst d)) as [Hin | Hout].
  - rewrite dict_keys_set_present by exact Hin. exact H.
  - rewrite dict_keys_set_absent by exact Hout.
    apply List.NoDup_app; [exact H | constructor; [intros [] | constructor] |].
    intros a Ha [<- | []]. contradiction.
Qed.

Lemma init_in_degree_nodup (acc : dict Z) (vs : list string) :
  List.NoDup (map fst acc) -> List.NoDup (map fst (init_in_degree acc vs)).
Proof.
  revert acc. induction vs as [| n vs IH]; intros acc H; simpl; [exact H |].
  apply IH. apply dict_keys_nodup_set. exact H.
Qed.

Lemma init_in_degree_in (vs : list string) (v : string) :
  In v (map fst (init_in_degree [] vs)) <-> In v vs.
Proof.
  split.
  - intros H. destruct (dict_get_some_in _ _ H) as [x Hx].
    rewrite init_in_degree_get in Hx. destruct (inb v vs) eqn:E; [| discriminate].
    apply inb_true. exact E.
  - intros H. eapply dict_get_some_key. rewrite init_in_degree_get.
    replace (inb v vs) with true by (symmetry; apply inb_true; exact H). reflexivity.
Qed.

(** [get_learning_path] on any node list, duplicates allowed (the dict
    [in_degree] keeps one entry per id), when every edge target is a node. *)
Lemma get_learning_path_spec_dup (V : list string) (E : list (string * string)) :
  (forall u v, In (u, v) E -> In v V) ->
  exists path, get_learning_path V E = Ok path /\ List.NoDup path /\
    (forall x, In x path -> In x V) /\
    (forall u v, In (u, v) E -> In v path -> precedes path u v) /\
    ((forall u v, In (u, v) E -> In u V) -> acyclic E -> forall v, In v V -> In v path).
Proof.
  intros HEt.
  set (K := map fst (init_in_degree [] V)).
  assert (HK : List.NoDup K) by (apply init_in_degree_nodup; constructor).
  assert (HKV : forall v, In v K <-> In v V) by (intros v; apply init_in_degree_in).
  assert (Hinit : init_in_degree [] V = map (fun k => (k, 0%Z)) K).
  { apply dict_repr; [reflexivity | exact HK |].
    intros v Hv. rewrite init_in_degree_get.
    replace (inb v V) with true by (symmetry; apply inb_true, HKV; exact Hv). reflexivity. }
  assert (HEtK : forall u v, In (u, v) E -> In v K) by (intros u v H; apply HKV; exact (HEt u v H)).
  destruct (build_graph_spec E [] (init_in_degree [] V)) as (g & d & Hb & Hkeys & Hg & Hd).
  { intros [u v] He. exact (HEtK u v He). }
  assert (Hdrepr : d = map (fun v => (v, Z.of_nat (in_count E v))) K).
  { apply dict_repr; [rewrite Hkeys; reflexivity | exact HK |].
    intros v Hv. rewrite Hd, Hinit.
    destruct (dict_get_some_in v (init_in_degree [] V) Hv) as [x Hx].
    rewrite Hinit in Hx. rewrite Hx.
    rewrite <- Hinit, init_in_degree_get in Hx.
    replace (inb v V) with true in Hx by (symmetry; apply inb_true, HKV; exact Hv).
    injection Hx as <-. reflexivity. }
  assert (Hg' : forall k, dd_get k g = succs E k) by (intros k; rewrite Hg; reflexivity).
  unfold get_learning_path. rewrite Hb, Hdrepr, initial_queue_repr.
  assert (HlenK : (length K <= length V)%nat).
  { apply NoDup_incl_length; [exact HK | intros x Hx; apply HKV; exact Hx]. }
  destruct (kahn_loop K E HEtK g Hg' _ (S (length V)) [] _ _ (initial_inv K E HK))
    as (Pf & d' & Hk & I'); [simpl; lia |].
  exists Pf. split; [exact Hk |].
  pose proof (inv_nodup _ _ _ _ _ _ I') as Hnd. rewrite app_nil_r in Hnd.
  split; [exact Hnd |]. split.
  { intros x Hx. apply HKV. apply (inv_incl _ _ _ _ _ _ I'). rewrite app_nil_r. exact Hx. }
  split; [exact (inv_order _ _ _ _ _ _ I') |].
  intros HEs Hac v Hv. apply (kahn_complete K E _ Pf d' I'); [| exact Hac | apply HKV; exact Hv].
  intros u w H. apply HKV. exact (HEs u w H).
Qed.

(** X16: a graph that [_validate_graph] accepts, with string ids and
    endpoints, never makes [get_learning_path] raise: it returns a path
    that lists declared ids, each at most once (even when an id is declared
    twice), with the source of every edge before its target when the target
    is listed; when the edges are acyclic the path lists every declared
    id. *)
Theorem validated_graph_learning_path (nodes edges : list (dict jval))
    (V : list string) (E : list (string * string)) :
  validate_graph {| gd_nodes := Some nodes; gd_edges := Some edges |} = true ->
  map (fun n => dict_get "id" n) nodes = map (fun v => Some (JStr v)) V ->
  map (fun e => (dict_get "source" e, dict_get "target" e)) edges =
    map (fun p => (Some (JStr (fst p)), Some (JStr (snd p)))) E ->
  exists path, get_learning_path V E = Ok path /\ List.NoDup path /\
    (forall x, In x path -> In x V) /\
    (forall u v, In (u, v) E -> In v path -> precedes path u v) /\
    (acyclic E -> forall v, In v V -> In v path).
Proof.
  intros Hval Hids Hends.
  apply validate_graph_accepts in Hval as (ns & es & Hn & He & _ & Hedges).
  injection Hn as <-. injection He as <-.
  assert (Hidv : id_vals nodes = map JStr V).
  { clear - Hids. revert V Hids. induction nodes as [| n rest IH]; intros V H.
    - destruct V; [reflexivity | discriminate].
    - destruct V as [| v V]; [discriminate |]. simpl in H. injection H as H1 H2.
      unfold id_vals. simpl. rewrite H1. simpl. f_equal. apply IH. exact H2. }
  assert (HE : forall u v, In (u, v) E -> In u V /\ In v V).
  { intros u v Huv.
    assert (Hin : In (Some (JStr u), Some (JStr v))
                    (map (fun e => (dict_get "source" e, dict_get "target" e)) edges)).
    { rewrite Hends. apply in_map_iff. exists (u, v). split; [reflexivity | exact Huv]. }
    apply in_map_iff in Hin as (e & He & Hine).
    injection He as Hs Ht.
    destruct (Hedges e Hine) as (s & t & Hs' & Ht' & Ms & Mt).
    rewrite Hs in Hs'. rewrite Ht in Ht'. injection Hs' as <-. injection Ht' as <-.
    rewrite Hidv in Ms, Mt. split; apply jmem_JStr; assumption. }
  destruct (get_learning_path_spec_dup V E (fun u v H => proj2 (HE u v H)))
    as (path & Hok & Hnd & Hincl & Hord & Hcomp).
  exists path. split; [exact Hok |]. split; [exact Hnd |]. split; [exact Hincl |].
  split; [exact Hord |]. apply Hcomp. intros u v H. exact (proj1 (HE u v H)).
Qed.

(** [node.get("level", 0)]. *)
Definition node_level (node : SummaryNode) : Z :=
  match sn_level node with Some l => l | None => 0%Z end.

(** The names of the nodes at level [l], in the order of [nodes]. *)
Definition names_at (l : Z) (nodes : list SummaryNode) : list string :=
  map sn_name (List.filter (fun n => Z.eqb (node_level n) l) nodes).

Lemma zdict_get_set (k k' : Z) (v : list string) (d : list (Z * list string)) :
  zdict_get k (zdict_set k' v d) = if Z.eqb k k' then Some v else zdict_get k d.
Proof.
  induction d as [| [k0 v0] d IH]; simpl.
  - reflexivity.
  - destruct (Z.eqb_spec k' k0) as [-> | Hne]; simpl.
    + destruct (Z.eqb k k0); reflexivity.
    + rewrite IH. destruct (Z.eqb_spec k k') as [-> | Hne']; [| reflexivity].
      replace (Z.eqb k' k0) with false by (symmetry; apply Z.eqb_neq; exact Hne). reflexivity.
Qed.

Lemma zdict_keys_set_nodup (k : Z) (v : list string) (d : list (Z * list string)) :
  List.NoDup (map fst d) -> List.NoDup (map fst (zdict_set k v d)).
Proof.
  induction d as [| [k0 v0] d IH]; simpl; intros H.
  - constructor; [intros [] | constructor].
  - inversion H as [| ? ? Hnin Hnd]; subst.
    destruct (Z.eqb_spec k k0) as [-> | Hne]; simpl; [exact H |].
    constructor; [| exact (IH Hnd)].
    intros Hin. apply Hnin. clear - Hin Hne. induction d as [| [k1 v1] d IH]; simpl in *.
    + destruct Hin as [-> | []]. congruence.
    + destruct (Z.eqb_spec k k1) as [-> | Hne1]; simpl in Hin; [exact Hin |].
      destruct Hin as [-> | Hin]; [left; reflexivity | right; exact (IH Hin)].
Qed.

Lemma zdict_in_keys (k : Z) (d : list (Z * list string)) :
  In k (map fst d) <-> zdict_get k d <> None.
Proof.
  induction d as [| [k0 v0] d IH]; simpl; [tauto |].
  destruct (Z.eqb_spec k k0) as [-> | Hne]; [split; [discriminate | auto] |].
  rewrite <- IH. split; [intros [-> | H]; [congruence | exact H] | auto].
Qed.

Lemma group_levels_get (nodes : list SummaryNode) :
  forall acc l, zdict_get l (group_levels nodes acc) =
  match zdict_get l acc with
  | Some a => Some (a ++ names_at l nodes)
  | None => if existsb (fun n => Z.eqb (node_level n) l) nodes
            then Some (names_at l nodes) else None
  end.
Proof.
  induction nodes as [| node rest IH]; intros acc l; cbn [group_levels].
  - destruct (zdict_get l acc); [rewrite app_nil_r |]; reflexivity.
  - fold (node_level node).
    rewrite IH, zdict_get_set. unfold names_at. cbn [List.filter existsb map].
    destruct (Z.eqb_spec (node_level node) l) as [<- | Hne].
    + rewrite !Z.eqb_refl. cbn [map orb].
      destruct (zdict_get (node_level node) acc) as [a |] eqn:Ea.
      * rewrite Ea. rewrite <- app_assoc. reflexivity.
      * rewrite zdict_get_set, Z.eqb_refl. reflexivity.
    + replace (Z.eqb l (node_level node)) with false by (symmetry; apply Z.eqb_neq; congruence).
      replace (Z.eqb (node_level node) l) with false by (symmetry; apply Z.eqb_neq; congruence).
      cbn [orb].
      assert (Hl1 : zdict_get l (match zdict_get (node_level node) acc with
                                 | None => zdict_set (node_level node) [] acc | Some _ => acc end) =
                    zdict_get l acc).
      { destruct (zdict_get (node_level node) acc); [reflexivity |]. rewrite zdict_get_set.
        replace (Z.eqb l (node_level node)) with false by (symmetry; apply Z.eqb_neq; congruence).
        reflexivity. }
      rewrite Hl1. reflexivity.
Qed.

Lemma group_levels_nodup (nodes : list SummaryNode) :
  forall acc, List.NoDup (map fst acc) -> List.NoDup (map fst (group_levels nodes acc)).
Proof.
  induction nodes as [| node rest IH]; intros acc H; cbn [group_levels]; [exact H |].
  apply IH. apply zdict_keys_set_nodup.
  destruct (zdict_get _ acc); [exact H | apply zdict_keys_set_nodup; exact H].
Qed.

(** X17: the dict [levels] of [format_graph_summary] has each level once,
    and under a level the names of the nodes at that level ([level]
    defaulting to 0), in the order in which the nodes are listed. *)
Theorem format_graph_summary_levels (nodes : list SummaryNode) :
  List.NoDup (map fst (group_levels nodes [])) /\
  forall l, zdict_get l (group_levels nodes []) =
    if existsb (fun n => Z.eqb (node_level n) l) nodes then Some (names_at l nodes) else None.
Proof.
  split; [apply group_levels_nodup; constructor |].
  intros l. rewrite group_levels_get. reflexivity.
Qed.

Lemma summary_lines_error (levels : list (Z * list string)) (keys : list Z) :
  forall acc, summary_lines levels keys acc = SummaryIndexError <->
  exists k, In k keys /\ py_index level_names (Z.min k 3) = None.
Proof.
  induction keys as [| k rest IH]; intros acc; cbn [summary_lines].
  - split; [discriminate | intros (k & [] & _)].
  - destruct (py_index level_names (Z.min k 3)) as [nm |] eqn:E.
    + rewrite IH. split.
      * intros (k' & Hk' & H'). exists k'. split; [right; exact Hk' | exact H'].
      * intros (k' & [<- | Hk'] & H'); [congruence |]. exists k'. auto.
    + split; [intros _; exists k; split; [left; reflexivity | exact E] | reflexivity].
Qed.

Lemma level_name_missing (k : Z) :
  py_index level_names (Z.min k 3) = None <-> (k < -4)%Z.
Proof.
  unfold py_index. change (length level_names) with 4%nat.
  destruct (Z.leb_spec 0 (Z.min k 3)) as [H0 | H0].
  - split; [| lia]. intros H. exfalso.
    apply (proj2 (nth_error_Some level_names (Z.to_nat (Z.min k 3)))); [| exact H].
    change (length level_names) with 4%nat. lia.
  - destruct (Z.leb_spec (- Z.of_nat 4) (Z.min k 3)) as [H1 | H1].
    + split; [| lia]. intros H. exfalso.
      apply (proj2 (nth_error_Some level_names (Z.to_nat (Z.of_nat 4 + Z.min k 3)))); [| exact H].
      change (length level_names) with 4%nat. lia.
    + split; [lia | reflexivity].
Qed.

Lemma insert_Z_In (x z : Z) (l : list Z) : In x (insert_Z z l) <-> z = x \/ In x l.
Proof.
  induction l as [| y l IH]; simpl; [tauto |].
  destruct (Z.leb z y); simpl; [tauto |]. rewrite IH. tauto.
Qed.

Lemma sort_Z_In (x : Z) (l : list Z) : In x (sort_Z l) <-> In x l.
Proof.
  unfold sort_Z. induction l as [| z l IH]; simpl; [tauto |].
  rewrite insert_Z_In, IH. split; intros [H | H]; auto.
Qed.

(** X18: [format_graph_summary] raises [IndexError] exactly when some node
    has a [level] below -4: [min(level, 3)] indexes the four level names,
    negative values from the end, and nothing else in it can fail on
    nodes with a name. *)
Theorem format_graph_summary_index_error (nodes : list SummaryNode) (n_edges : nat) :
  format_graph_summary nodes n_edges = SummaryIndexError <->
  exists node l, In node nodes /\ sn_level node = Some l /\ (l < -4)%Z.
Proof.
  unfold format_graph_summary. cbv zeta. rewrite summary_lines_error.
  split.
  - intros (k & Hk & Hn). apply level_name_missing in Hn.
    apply sort_Z_In, zdict_in_keys in Hk. rewrite group_levels_get in Hk. cbn [zdict_get] in Hk.
    destruct (existsb _ nodes) eqn:Ex; [| congruence].
    apply existsb_exists in Ex as (node & Hin & Hl). apply Z.eqb_eq in Hl.
    exists node. unfold node_level in Hl. destruct (sn_level node) as [l |] eqn:El; [| lia].
    exists l. subst. auto.
  - intros (node & l & Hin & Hl & Hlt). exists l. split; [| apply level_name_missing; exact Hlt].
    apply sort_Z_In, zdict_in_keys. rewrite group_levels_get. cbn [zdict_get].
    replace (existsb _ nodes) with true; [discriminate |].
    symmetry. apply existsb_exists. exists node. split; [exact Hin |].
    apply Z.eqb_eq. unfold node_level. rewrite Hl. reflexivity.
Qed.

(** X16 at a graph whose node list declares [A] twice. *)
Lemma validated_graph_learning_path_witness :
  validate_graph {| gd_nodes := Some
    [[("id", JStr "A"); ("name", JStr "A"); ("level", JInt 1%Z); ("difficulty", JInt 1%Z)];
     [("id", JStr "B"); ("name", JStr "B"); ("level", JInt 2%Z); ("difficulty", JInt 1%Z)];
     [("id", JStr "A"); ("name", JStr "A"); ("level", JInt 1%Z); ("difficulty", JInt 1%Z)]];
    gd_edges := Some [[("source", JStr "A"); ("target", JStr "B")]] |} = true /\
  exists path, get_learning_path ["A"; "B"; "A"] [("A", "B")] = Ok path /\ List.NoDup path /\
    (forall x, In x path -> In x ["A"; "B"; "A"]) /\
    (forall u v, In (u, v) [("A", "B")] -> In v path -> precedes path u v) /\
    (acyclic [("A", "B")] -> forall v, In v ["A"; "B"; "A"] -> In v path).
Proof.
  split; [vm_compute; reflexivity |].
  apply (validated_graph_learning_path
    [[("id", JStr "A"); ("name", JStr "A"); ("level", JInt 1%Z); ("difficulty", JInt 1%Z)];
     [("id", JStr "B"); ("name", JStr "B"); ("level", JInt 2%Z); ("difficulty", JInt 1%Z)];
     [("id", JStr "A"); ("name", JStr "A"); ("level", JInt 1%Z); ("difficulty", JInt 1%Z)]]
    [[("source", JStr "A"); ("target", JStr "B")]] ["A"; "B"; "A"] [("A", "B")]);
    vm_compute; reflexivity.
Defined.

End GraphExtra.
